(** * ArtSpotter: the feature-matching core of the recognition backend

    The three backend variants ([api/index.js], [railway-backend/index.js]
    and the later one with description generation) share, verbatim, the
    function [calculateSimilarity] and the matching loop of the
    [/api/recognize] handler.  This file embeds both and proves what the
    design document says about them.

    JavaScript numbers are IEEE-754 binary64 values; they are modelled by
    Rocq's primitive [float]s, which are the same format with the same
    rounding.  The arithmetic the code uses is collected in the interface
    [JSNumber], with the few laws of it that the matching loop relies
    on. *)

From Stdlib Require Import List Bool Arith ZArith Lia Permutation.
From Stdlib Require String.
From Stdlib Require Import Ascii.
Import String.StringSyntax.
Delimit Scope string_scope with string.
Bind Scope string_scope with String.string.
From Stdlib Require Import Floats.
Import ListNotations.

Set Implicit Arguments.
#[local] Set Warnings "-inexact-float".

(** ** The arithmetic of JavaScript numbers used by the source *)

Class JSNumber (num : Type) : Type := {
  js_zero : num;                    (* the literal [0] *)
  js_nan  : num;                    (* [NaN], what [undefined] coerces to *)
  js_add  : num -> num -> num;      (* [x + y] *)
  js_mul  : num -> num -> num;      (* [x * y] *)
  js_div  : num -> num -> num;      (* [x / y] *)
  js_sqrt : num -> num;             (* [Math.sqrt(x)] *)
  js_gt   : num -> num -> bool      (* [x > y] *)
}.

(** The facts about [>] and [*] that the proofs below rely on; binary64
    has them ([binary64_laws]). *)
Class JSLaws (num : Type) `{JSNumber num} : Prop := {
  js_gt_trans : forall x y z, js_gt x y = true -> js_gt y z = true -> js_gt x z = true;
  js_gt_cotrans : forall x y z,
      y <> js_nan -> js_gt x z = true -> js_gt x y = true \/ js_gt y z = true;
  js_gt_irrefl : forall x, js_gt x x = false;
  js_gt_nan_l : forall x, js_gt js_nan x = false;
  js_gt_nan_r : forall x, js_gt x js_nan = false;
  js_zero_not_nan : js_zero <> js_nan :> num;
  js_mul_comm : forall x y, js_mul x y = js_mul y x
}.
Arguments JSLaws num {_}.

(** IEEE-754 binary64: the numbers the program really computes with. *)
#[export] Instance binary64 : JSNumber float := {|
  js_zero := 0%float;
  js_nan  := nan;
  js_add  := PrimFloat.add;
  js_mul  := PrimFloat.mul;
  js_div  := PrimFloat.div;
  js_sqrt := PrimFloat.sqrt;
  js_gt   := fun x y => PrimFloat.ltb y x
|}.

(** ** [calculateSimilarity] *)

Section Similarity.

Context {num : Type} `{JSNumber num}.

(** [a[i]]: reading past the end of an array yields [undefined], which
    the arithmetic operators coerce to [NaN]. *)
Definition read (a : list num) (i : nat) : num := nth i a js_nan.

(** The three accumulators of the loop. *)
Record sums : Type := mkSums {
  dotProduct : num;
  norm1 : num;
  norm2 : num
}.

(** One iteration of
    [for (let i = 0; i < features1.length; i++) { ... }]. *)
Definition accumulate (features1 features2 : list num) (s : sums) (i : nat) : sums :=
  {| dotProduct := js_add (dotProduct s) (js_mul (read features1 i) (read features2 i));
     norm1 := js_add (norm1 s) (js_mul (read features1 i) (read features1 i));
     norm2 := js_add (norm2 s) (js_mul (read features2 i) (read features2 i)) |}.

Definition similarityLoop (features1 features2 : list num) : sums :=
  fold_left (accumulate features1 features2)
            (seq 0 (length features1))
            (mkSums js_zero js_zero js_zero).

Definition calculateSimilarity (features1 features2 : list num) : num :=
  if negb (length features1 =? length features2) then js_zero
  else
    let s := similarityLoop features1 features2 in
    js_div (dotProduct s) (js_mul (js_sqrt (norm1 s)) (js_sqrt (norm2 s))).

(** The same sums, taken over the two arrays side by side; the loop
    computes them when the arrays are equally long
    ([similarityLoop_combine]). *)
Definition accumulatePair (s : sums) (xy : num * num) : sums :=
  {| dotProduct := js_add (dotProduct s) (js_mul (fst xy) (snd xy));
     norm1 := js_add (norm1 s) (js_mul (fst xy) (fst xy));
     norm2 := js_add (norm2 s) (js_mul (snd xy) (snd xy)) |}.

Definition pairSums (features1 features2 : list num) (s : sums) : sums :=
  fold_left accumulatePair (combine features1 features2) s.

Definition swapNorms (s : sums) : sums :=
  {| dotProduct := dotProduct s; norm1 := norm2 s; norm2 := norm1 s |}.

End Similarity.

(** ** The matching loop of [/api/recognize] *)

(** What a JavaScript statement can do: complete with a value, or throw. *)
Inductive jsError : Type := TypeError.

Inductive completion (A : Type) : Type :=
| Returns (a : A)
| Throws (e : jsError).
Arguments Returns {A} a.
Arguments Throws {A} e.

Definition bind {A B : Type} (c : completion A) (k : A -> completion B) : completion B :=
  match c with
  | Returns a => k a
  | Throws e => Throws e
  end.

Notation "x <- c ;; k" := (bind c (fun x => k))
  (at level 61, c at next level, right associativity).

(** Truthiness of a value that is an object (or a non-empty text) or [null]. *)
Definition truthy {A : Type} (v : option A) : bool :=
  match v with Some _ => true | None => false end.

(** Reading a property of [v]: a [TypeError] when [v] is [null]. *)
Definition deref {A : Type} (v : option A) : completion A :=
  match v with Some a => Returns a | None => Throws TypeError end.

Section Matcher.

Context {num : Type} `{JSNumber num}.

(** A row of the [paintings] table as the handler selects it.  The column
    [features] is a text holding [JSON.stringify] of the vector computed
    at ingestion: [None] stands for a column that is [NULL] (or empty,
    hence falsy), [Some v] for a text that [JSON.parse] decodes to [v]. *)
Record painting : Type := mkPainting {
  id : Z;
  title : String.string;
  artist : String.string;
  year : Z;
  description : String.string;
  museum : String.string;
  wiki_link : String.string;
  features : option (list num)
}.

(** [let bestMatch = null; let highestSimilarity = 0;] *)
Record best : Type := mkBest {
  bestMatch : option painting;
  highestSimilarity : num
}.

Definition noBest : best := mkBest None js_zero.

(** The body of [for (const painting of result.rows) { ... }]. *)
Definition compareWith (uploadedFeatures : list num) (b : best) (p : painting) : best :=
  match features p with
  | Some storedFeatures =>
      let similarity := calculateSimilarity uploadedFeatures storedFeatures in
      if js_gt similarity (highestSimilarity b)
      then {| highestSimilarity := similarity; bestMatch := Some p |}
      else b
  | None => b
  end.

Definition scanRows (uploadedFeatures : list num) (rows : list painting) : best :=
  fold_left (compareWith uploadedFeatures) rows noBest.

(** The two JSON bodies the handler answers with: the recognised painting
    with its confidence, or the failure with the best confidence seen. *)
Inductive MatchResult : Type :=
| Match (entry : painting) (score : num)
| NoMatch (score : num).

Definition score (r : MatchResult) : num :=
  match r with Match _ s => s | NoMatch s => s end.

(** [if (bestMatch && highestSimilarity > confidenceThreshold) {...} else {...}];
    the first branch reads [bestMatch.id], [bestMatch.title], ... *)
Definition respond (confidenceThreshold : num) (b : best) : completion MatchResult :=
  if truthy (bestMatch b) && js_gt (highestSimilarity b) confidenceThreshold
  then entry <- deref (bestMatch b) ;; Returns (Match entry (highestSimilarity b))
  else Returns (NoMatch (highestSimilarity b)).

(** The handler's matching pass, from [let bestMatch = null] to the
    two answers, with its constant [confidenceThreshold] taken as a
    parameter; [recognize] below puts the constant back. *)
Definition matchPaintings (threshold : num) (uploadedFeatures : list num)
  (rows : list painting) : completion MatchResult :=
  respond threshold (scanRows uploadedFeatures rows).

(** The similarity scores of the eligible candidates, in input order. *)
Definition observedScores (uploadedFeatures : list num) (rows : list painting) : list num :=
  flat_map (fun p => match features p with
                     | Some v => [calculateSimilarity uploadedFeatures v]
                     | None => []
                     end) rows.

(** No eligible candidate of [rows] scores strictly above [h]. *)
Definition unbeaten (uploadedFeatures : list num) (rows : list painting) (h : num) : Prop :=
  forall p v, In p rows -> features p = Some v ->
              js_gt (calculateSimilarity uploadedFeatures v) h = false.

(** Every eligible candidate of [rows] scores strictly below [h], unless
    its score is [NaN]. *)
Definition strictlyBelow (uploadedFeatures : list num) (rows : list painting) (h : num) : Prop :=
  forall p v, In p rows -> features p = Some v ->
              calculateSimilarity uploadedFeatures v <> js_nan ->
              js_gt h (calculateSimilarity uploadedFeatures v) = true.

(** What the loop has established once it has gone through [rows]. *)
Inductive scanned (uploadedFeatures : list num) (rows : list painting) : best -> Prop :=
| scanned_none :
    unbeaten uploadedFeatures rows js_zero ->
    scanned uploadedFeatures rows (mkBest None js_zero)
| scanned_some (before after : list painting) (p : painting) (v : list num) :
    rows = before ++ p :: after ->
    features p = Some v ->
    js_gt (calculateSimilarity uploadedFeatures v) js_zero = true ->
    strictlyBelow uploadedFeatures before (calculateSimilarity uploadedFeatures v) ->
    unbeaten uploadedFeatures rows (calculateSimilarity uploadedFeatures v) ->
    scanned uploadedFeatures rows (mkBest (Some p) (calculateSimilarity uploadedFeatures v)).

End Matcher.

Arguments painting num : clear implicits.
Arguments best num : clear implicits.
Arguments MatchResult num : clear implicits.

(** [const confidenceThreshold = 0.6;] *)
Definition confidenceThreshold : float := 0.6%float.

(** The matching pass as the handler runs it, with its own threshold. *)
Definition recognize (uploadedFeatures : list float) (rows : list (painting float))
  : completion (MatchResult float) :=
  matchPaintings confidenceThreshold uploadedFeatures rows.

(** ** Sample catalog rows *)

Definition entry (i : Z) (name : String.string) (v : option (list float)) : painting float :=
  {| id := i; title := name; artist := String.EmptyString; year := 0%Z;
     description := String.EmptyString; museum := String.EmptyString;
     wiki_link := String.EmptyString; features := v |}.

Definition starryNight : painting float :=
  entry 1 "The Starry Night"%string (Some [1; 0]%float).

Definition monaLisa : painting float :=
  entry 2 "Mona Lisa"%string (Some [0; 1]%float).

(** A second row with the vector of [starryNight]. *)
Definition starryNightCopy : painting float :=
  entry 3 "The Starry Night (copy)"%string (Some [1; 0]%float).

(** A row whose vector points away from the query [[1; 0]]. *)
Definition greatWave : painting float :=
  entry 4 "The Great Wave off Kanagawa"%string (Some [-1; 0]%float).

(** A row that has not been processed yet. *)
Definition americanGothic : painting float :=
  entry 6 "American Gothic"%string None.

(** ** Shapes of binary64 values *)

(** [x === 0]: the value is [+0] or [-0]. *)
Definition isZero (x : float) : Prop := (x =? 0)%float = true.

Definition zeroOrNaN (x : float) : Prop := isZero x \/ x = nan.

(** [+0], a positive number or [+Infinity]; [NaN] is let through. *)
Definition sf_not_negative (x : spec_float) : bool :=
  match x with
  | S754_zero s | S754_infinity s | S754_finite s _ _ => negb s
  | S754_nan => true
  end.

(** The same shapes on the bit-level model. *)
Definition sf_zero (x : spec_float) : bool :=
  match x with S754_zero _ => true | _ => false end.

Definition sf_zero_or_nan (x : spec_float) : bool :=
  match x with S754_zero _ | S754_nan => true | _ => false end.

(** ** Rows that can take the lead *)

Section Contenders.

Context {num : Type} `{JSNumber num}.

(** The row has a feature vector whose similarity to the query is
    strictly above the initial best [0]. *)
Definition canWin (uploadedFeatures : list num) (p : painting num) : bool :=
  match features p with
  | Some v => js_gt (calculateSimilarity uploadedFeatures v) js_zero
  | None => false
  end.

(** [success] of the answer. *)
Definition isMatch (r : MatchResult num) : bool :=
  match r with Match _ _ => true | NoMatch _ => false end.

(** The running best is the initial [0] or lies strictly above it. *)
Definition leads (b : best num) : Prop :=
  highestSimilarity b = js_zero \/ js_gt (highestSimilarity b) js_zero = true.

End Contenders.

(** ** The route [POST /api/recognize]

    The handler of [api/index.js] around the matching loop: the check of
    the upload, the calls to the extractor and to the database, the
    decoding of the stored texts, the recognition log, the view count and
    the [try]/[catch] that turns every exception into a 500 answer. *)

(** The result of an awaited call: a value, or an exception with its
    [message]. *)
Inductive outcome (A : Type) : Type :=
| Done (a : A)
| Raised (message : String.string).
Arguments Done {A} a.
Arguments Raised {A} message.

(** A row as [pool.query] returns it: [features] is the text column, or
    [NULL]. *)
Record paintingRow : Type := mkRow {
  row_id : Z;
  row_title : String.string;
  row_artist : String.string;
  row_year : Z;
  row_description : String.string;
  row_museum : String.string;
  row_wiki_link : String.string;
  row_features : option String.string
}.

(** The statements the handler sends through [pool.query]. *)
Inductive query : Type :=
| SelectPaintings
    (* SELECT id, title, ..., features FROM paintings WHERE features IS NOT NULL *)
| InsertLog (painting_id : option Z) (confidence_score : float) (success : bool)
    (* INSERT INTO recognition_logs (painting_id, confidence_score, success) *)
| IncrementViewCount (painting_id : Z)
    (* UPDATE paintings SET view_count = view_count + 1 WHERE id = $1 *)
| StoreFeatures (features : String.string) (painting_id : String.string).
    (* UPDATE painting SET features = $1, processing_status = 'completed'
       WHERE id = $2 RETURNING title, artist *)

(** The [painting] object of a positive answer. *)
Record paintingJson : Type := mkJson {
  json_id : Z;
  json_title : String.string;
  json_artist : String.string;
  json_year : Z;
  json_description : String.string;
  json_museum : String.string;
  json_wikiLink : String.string
}.

Definition toJson (bestMatch : paintingRow) : paintingJson :=
  {| json_id := row_id bestMatch;
     json_title := row_title bestMatch;
     json_artist := row_artist bestMatch;
     json_year := row_year bestMatch;
     json_description := row_description bestMatch;
     json_museum := row_museum bestMatch;
     json_wikiLink := row_wiki_link bestMatch |}.

(** The four answers of the route. *)
Inductive response : Type :=
| NoImageProvided                                           (* 400 *)
| PaintingRecognized (painting : paintingJson) (confidence : float)
| PaintingNotRecognized (confidence : float)
| ProcessingFailed (error : String.string).                 (* 500 *)

(** A computation of the handler: it starts from the statements the
    database has executed so far and ends with a value or an exception,
    and with the statements executed by then. *)
Definition io (A : Type) : Type := list query -> outcome A * list query.

Definition ioRet {A : Type} (a : A) : io A := fun executed => (Done a, executed).

Definition ioBind {A B : Type} (c : io A) (k : A -> io B) : io B :=
  fun executed =>
    match c executed with
    | (Done a, executed') => k a executed'
    | (Raised message, executed') => (Raised message, executed')
    end.

Notation "x <~ c ;; k" := (ioBind c (fun x => k))
  (at level 61, c at next level, right associativity).

(** [await] of a call that does not touch the database. *)
Definition await {A : Type} (o : outcome A) : io A := fun executed => (o, executed).

(** [try { body } catch (error) { handler(error.message) }] *)
Definition tryCatch {A : Type} (body : io A) (handler : String.string -> io A) : io A :=
  fun executed =>
    match body executed with
    | (Done a, executed') => (Done a, executed')
    | (Raised message, executed') => handler message executed'
    end.

(** [bestMatch] is [null] with the initial best [0], or set with a best
    strictly above [0]. *)
Definition settled (bestMatch : option paintingRow) (highestSimilarity : float) : Prop :=
  (bestMatch = None /\ highestSimilarity = 0%float)
  \/ (truthy bestMatch = true /\ (0 <? highestSimilarity)%float = true).

(** A text is truthy when it is not empty. *)
Definition nonEmpty (text : String.string) : bool :=
  match text with String.EmptyString => false | _ => true end.

(** [bestMatch.id]: a [TypeError] on [null]. *)
Definition derefRow (bestMatch : option paintingRow) : outcome paintingRow :=
  match bestMatch with
  | Some p => Done p
  | None => Raised "Cannot read properties of null"%string
  end.



Section RecognizeRoute.

(** The collaborators of the handler.  [extractFeatures] runs the image
    through the network; [JSON_parse] decodes a stored text, written by
    [JSON.stringify] from an array of numbers, and throws on a text that
    is not JSON; [pool_query] executes a statement and returns its rows,
    or throws. *)
Variable buffer : Type.
Variable extractFeatures : buffer -> outcome (list float).
Variable JSON_parse : String.string -> outcome (list float).
Variable pool_query : query -> outcome (list paintingRow).

(** [await pool.query(...)]: a statement that throws is not executed. *)
Definition poolQuery (statement : query) : io (list paintingRow) :=
  fun executed =>
    match pool_query statement with
    | Done rows => (Done rows, executed ++ [statement])
    | Raised message => (Raised message, executed)
    end.

(** The loop [for (const painting of result.rows) { ... }], with the
    decoding of each truthy text. *)
Fixpoint compareStored (uploadedFeatures : list float) (rows : list paintingRow)
  (bestMatch : option paintingRow) (highestSimilarity : float)
  : outcome (option paintingRow * float) :=
  match rows with
  | [] => Done (bestMatch, highestSimilarity)
  | painting :: rest =>
      match row_features painting with
      | Some text =>
          if nonEmpty text then
            match JSON_parse text with
            | Done storedFeatures =>
                let similarity := calculateSimilarity uploadedFeatures storedFeatures in
                if (highestSimilarity <? similarity)%float
                then compareStored uploadedFeatures rest (Some painting) similarity
                else compareStored uploadedFeatures rest bestMatch highestSimilarity
            | Raised message => Raised message
            end
          else compareStored uploadedFeatures rest bestMatch highestSimilarity
      | None => compareStored uploadedFeatures rest bestMatch highestSimilarity
      end
  end.

Definition recognizeRoute (file : option buffer) : io response :=
  tryCatch
    (match file with
     | None => ioRet NoImageProvided
     | Some imageBuffer =>
         uploadedFeatures <~ await (extractFeatures imageBuffer) ;;
         result <~ poolQuery SelectPaintings ;;
         scan <~ await (compareStored uploadedFeatures result None 0%float) ;;
         let bestMatch := fst scan in
         let highestSimilarity := snd scan in
         if truthy bestMatch && (confidenceThreshold <? highestSimilarity)%float
         then
           p <~ await (derefRow bestMatch) ;;
           _ <~ poolQuery (InsertLog (Some (row_id p)) highestSimilarity true) ;;
           _ <~ poolQuery (IncrementViewCount (row_id p)) ;;
           ioRet (PaintingRecognized (toJson p) highestSimilarity)
         else
           _ <~ poolQuery (InsertLog None highestSimilarity false) ;;
           ioRet (PaintingNotRecognized highestSimilarity)
     end)
    (fun message => ioRet (ProcessingFailed message)).

(** The stored row as the matcher of the first part sees it, once its
    text is decoded. *)
Definition decoded (p : paintingRow) : option (list float) :=
  match row_features p with
  | Some text =>
      if nonEmpty text then
        match JSON_parse text with Done v => Some v | Raised _ => None end
      else None
  | None => None
  end.

Definition asPainting (p : paintingRow) : painting float :=
  {| id := row_id p; title := row_title p; artist := row_artist p; year := row_year p;
     description := row_description p; museum := row_museum p;
     wiki_link := row_wiki_link p; features := decoded p |}.

(** The text of the row, if any, is not one on which [JSON.parse]
    throws. *)
Definition parses (p : paintingRow) : Prop :=
  forall text message,
    row_features p = Some text -> nonEmpty text = true ->
    JSON_parse text <> Raised message.

End RecognizeRoute.

(** ** Sample collaborators *)

(** An extractor that maps every image to [[1; 0]]. *)
Definition sampleExtract (image : nat) : outcome (list float) := Done [1; 0]%float.

(** A decoder that knows two texts and throws on any other. *)
Definition sampleParse (text : String.string) : outcome (list float) :=
  if String.eqb text "[1,0]"%string then Done [1; 0]%float
  else if String.eqb text "[0,1]"%string then Done [0; 1]%float
  else Raised "Unexpected token in JSON"%string.

Definition storedRow (i : Z) (name : String.string) (text : option String.string)
  : paintingRow :=
  {| row_id := i; row_title := name; row_artist := String.EmptyString; row_year := 0%Z;
     row_description := String.EmptyString; row_museum := String.EmptyString;
     row_wiki_link := String.EmptyString; row_features := text |}.

Definition sampleRows : list paintingRow :=
  [storedRow 2 "Mona Lisa"%string (Some "[0,1]"%string);
   storedRow 1 "The Starry Night"%string (Some "[1,0]"%string)].

(** The same rows followed by one whose text is cut short. *)
Definition damagedRows : list paintingRow :=
  sampleRows ++ [storedRow 5 "The Persistence of Memory"%string (Some "[0.5,"%string)].

(** A database that executes every statement. *)
Definition sampleDatabase (rows : list paintingRow) (statement : query)
  : outcome (list paintingRow) :=
  match statement with
  | SelectPaintings => Done rows
  | _ => Done []
  end.

(** A database that loses the connection on the update of the view
    count. *)
Definition failingUpdate (rows : list paintingRow) (statement : query)
  : outcome (list paintingRow) :=
  match statement with
  | SelectPaintings => Done rows
  | InsertLog _ _ _ => Done []
  | IncrementViewCount _ => Raised "Connection terminated"%string
  | StoreFeatures _ _ => Done []
  end.

(** ** The fallback text improvement ([enhanceDescriptionText])

    Texts are sequences of 8-bit characters.  The searches and the
    replacements work on the characters as they are.  [toUpperCase] is
    modelled on ASCII, where it is exact; a character outside ASCII is
    left as it is, which [String.prototype.toUpperCase] does not always
    do (an accented lower-case letter gets its capital).  Where a
    statement needs the first character to be left alone, it asks for
    an ASCII character ([startsCapitalized]). *)

Definition text : Type := list ascii.

Definition lit (s : String.string) : text := String.list_ascii_of_string s.

(** [pat] stands at the beginning of [s]. *)
Fixpoint startsWith (pat s : text) : bool :=
  match pat, s with
  | [], _ => true
  | _ :: _, [] => false
  | p :: pat', c :: s' => Ascii.eqb p c && startsWith pat' s'
  end.

(** [s.includes(pat)] *)
Fixpoint includes (pat s : text) : bool :=
  startsWith pat s
  || match s with
     | [] => false
     | _ :: s' => includes pat s'
     end.

(** [s.replace(/pat/g, rep)] for a pattern of plain characters: the
    text is read from the left; where the pattern stands, [rep] is
    written and the reading goes on after the match ([skip] counts the
    characters of the match still to pass); elsewhere the character is
    copied. *)
Fixpoint replaceFrom (pat rep : text) (skip : nat) (s : text) : text :=
  match s with
  | [] => []
  | c :: s' =>
      match skip with
      | S k => replaceFrom pat rep k s'
      | O =>
          if startsWith pat s
          then rep ++ replaceFrom pat rep (length pat - 1) s'
          else c :: replaceFrom pat rep 0 s'
      end
  end.

Definition replaceAll (pat rep s : text) : text := replaceFrom pat rep 0 s.

Definition isLowerCase (c : ascii) : bool :=
  (97 <=? nat_of_ascii c) && (nat_of_ascii c <=? 122).

Definition toUpperCase (c : ascii) : ascii :=
  if isLowerCase c then ascii_of_nat (nat_of_ascii c - 32) else c.

(** [s.charAt(0).toUpperCase() + s.slice(1)] *)
Definition capitalize (s : text) : text :=
  match s with
  | [] => []
  | c :: s' => toUpperCase c :: s'
  end.

Definition isAscii (c : ascii) : bool := nat_of_ascii c <? 128.

(** The text is empty, or its first character is an ASCII character
    other than a lower-case letter: [charAt(0).toUpperCase()] is this
    character again. *)
Definition startsCapitalized (s : text) : bool :=
  match s with
  | [] => true
  | c :: _ => isAscii c && negb (isLowerCase c)
  end.

Definition enhanceDescriptionText (description : text) : text :=
  let improved := description in
  let improved := replaceAll (lit "painting") (lit "masterpiece") improved in
  let improved := replaceAll (lit "shows") (lit "depicts") improved in
  let improved := replaceAll (lit "made") (lit "created") improved in
  let improved := replaceAll (lit "work") (lit "artistic achievement") improved in
  capitalize improved.

(** No copy of [rep] written into a text can begin inside an occurrence
    of a pattern whose characters after the first are [t]: no end of
    [t] begins like [rep], or is the beginning of [rep]. *)
Fixpoint noBlockStart (rep t : text) : bool :=
  match t with
  | [] => true
  | _ :: t' => negb (startsWith t rep || startsWith rep t) && noBlockStart rep t'
  end.

(** No occurrence of [q] can begin inside a copy of [rep]: no end of
    [rep] begins like [q], or is the beginning of [q]. *)
Fixpoint noBlockEnd (q rep : text) : bool :=
  match rep with
  | [] => true
  | _ :: rep' => negb (startsWith q rep || startsWith rep q) && noBlockEnd q rep'
  end.

(** Writing [rep] into a text cannot make a new occurrence of [q]. *)
Definition cannotCreate (q rep : text) : bool :=
  noBlockEnd q rep && noBlockStart rep (tl q).

(** ** The template descriptions ([generateTemplateDescription]) *)

Definition isUpperCase (c : ascii) : bool :=
  (65 <=? nat_of_ascii c) && (nat_of_ascii c <=? 90).

Definition toLowerCase (c : ascii) : ascii :=
  if isUpperCase c then ascii_of_nat (nat_of_ascii c + 32) else c.

(** [s.toLowerCase()], exact on ASCII. *)
Definition toLowerCaseText (s : text) : text := map toLowerCase s.

Fixpoint textEqb (s t : text) : bool :=
  match s, t with
  | [], [] => true
  | c :: s', d :: t' => Ascii.eqb c d && textEqb s' t'
  | _, _ => false
  end.

(** The double quote that opens and closes the title. *)
Definition quote : text := [ascii_of_nat 34].

(** [year ? ` (${year})` : '']: [None] is a [year] that is falsy
    (missing, [0], empty), [Some y] the text of a truthy one. *)
Definition yearPart (year : option text) : text :=
  match year with
  | Some y => lit " (" ++ y ++ lit ")"
  | None => []
  end.

(** The object [artistTemplates], as the list of its keys and values in
    the order they are written. *)
Definition artistTemplates (title artist : text) (year : option text) (museum : text)
  : list (text * text) :=
  [ (lit "turner",
     quote ++ title ++ quote ++ lit " by J.M.W. Turner" ++ yearPart year
       ++ lit " exemplifies the artist's mastery of light and atmospheric effects. This "
       ++ museum
       ++ lit " masterpiece demonstrates Turner's innovative approach to landscape painting, with its luminous palette and dynamic brushwork capturing the sublime power of nature.");
    (lit "constable",
     quote ++ title ++ quote ++ lit " by John Constable" ++ yearPart year
       ++ lit " represents the pinnacle of English landscape painting. Housed in "
       ++ museum
       ++ lit ", this work showcases Constable's revolutionary plein air technique and his deep emotional connection to the English countryside, influencing generations of artists.");
    (lit "van gogh",
     quote ++ title ++ quote ++ lit " by Vincent van Gogh" ++ yearPart year
       ++ lit " displays the artist's distinctive post-impressionist style with bold colors and expressive brushstrokes. This "
       ++ museum
       ++ lit " treasure captures van Gogh's unique vision and emotional intensity that would influence modern art profoundly.");
    (lit "default",
     quote ++ title ++ quote ++ lit " by " ++ artist ++ yearPart year
       ++ lit " is a significant work housed in "
       ++ museum
       ++ lit ". This painting demonstrates " ++ artist
       ++ lit "'s distinctive artistic style and represents an important contribution to the museum's collection, continuing to inspire and educate visitors about the evolution of art.") ].

(** [object[key]]: [None] is [undefined]. *)
Definition property (key : text) (object : list (text * text)) : option text :=
  option_map snd (find (fun entry => textEqb (fst entry) key) object).

Definition generateTemplateDescription (title artist : text) (year : option text)
  (museum : text) : option text :=
  let templates := artistTemplates title artist year museum in
  let artistKey :=
    match find (fun key => includes key (toLowerCaseText artist)) (map fst templates) with
    | Some key => key
    | None => lit "default"
    end in
  property artistKey templates.

(** ** The route [POST /api/admin/add-features] *)

(** The answers of the route: two 400, the 404, the success with the
    title and the artist of the row, the id as given and the number of
    components stored, and the 500. *)
Inductive featuresResponse : Type :=
| ImageRequired
| PaintingIdRequired
| PaintingNotFound
| FeaturesExtracted (title artist paintingId : String.string) (featureCount : nat)
| FeaturesFailed (error : String.string).

(** A field of the form is truthy when it is present and not empty. *)
Definition truthyText (field : option String.string) : bool :=
  match field with
  | Some value => nonEmpty value
  | None => false
  end.

Section AddFeaturesRoute.

Variable buffer : Type.
Variable extractFeatures : buffer -> outcome (list float).
Variable JSON_stringify : list float -> String.string.
Variable pool_query : query -> outcome (list paintingRow).

Definition addFeaturesRoute (file : option buffer) (paintingId : option String.string)
  : io featuresResponse :=
  tryCatch
    (match file with
     | None => ioRet ImageRequired
     | Some imageBuffer =>
         match paintingId with
         | Some givenId =>
             if nonEmpty givenId then
               features <~ await (extractFeatures imageBuffer) ;;
               result <~ poolQuery pool_query
                           (StoreFeatures (JSON_stringify features) givenId) ;;
               match result with
               | [] => ioRet PaintingNotFound
               | painting :: _ =>
                   ioRet (FeaturesExtracted (row_title painting) (row_artist painting)
                            givenId (length features))
               end
             else ioRet PaintingIdRequired
         | None => ioRet PaintingIdRequired
         end
     end)
    (fun message => ioRet (FeaturesFailed message)).

End AddFeaturesRoute.

(** * Proofs *)

(** ** binary64 satisfies the laws

  The primitive operations are specified by [Prim2SF] against the
  bit-level model [spec_float]; the laws are proved there by cases. *)

Module SF.

Ltac by_compare :=
  change (Pos.compare_cont Eq) with Pos.compare in *;
  repeat match goal with
    | |- context [Z.compare ?a ?b] => destruct (Z.compare_spec a b)
    | |- context [Pos.compare ?a ?b] => destruct (Pos.compare_spec a b)
    end;
  cbn; intros; subst; try discriminate; try reflexivity; try tauto; try lia.

Lemma ltb_trans (x y z : spec_float) :
  SFltb x y = true -> SFltb y z = true -> SFltb x z = true.
Proof.
  unfold SFltb, SFcompare.
  destruct x as [[|]|[|]| |[|] mx ex], y as [[|]|[|]| |[|] my ey],
           z as [[|]|[|]| |[|] mz ez];
    try discriminate; try reflexivity; by_compare.
Qed.

Lemma ltb_cotrans (x y z : spec_float) :
  y <> S754_nan -> SFltb z x = true -> SFltb y x = true \/ SFltb z y = true.
Proof.
  unfold SFltb, SFcompare.
  destruct x as [[|]|[|]| |[|] mx ex], y as [[|]|[|]| |[|] my ey],
           z as [[|]|[|]| |[|] mz ez];
    try discriminate; try congruence; try tauto; by_compare.
Qed.

Lemma ltb_irrefl (x : spec_float) : SFltb x x = false.
Proof.
  unfold SFltb, SFcompare.
  destruct x as [[|]|[|]| |[|] mx ex]; try reflexivity;
    change (Pos.compare_cont Eq) with Pos.compare;
    rewrite Z.compare_refl, Pos.compare_refl; reflexivity.
Qed.

Lemma mul_comm (x y : spec_float) : SF64mul x y = SF64mul y x.
Proof.
  unfold SF64mul, SFmul.
  destruct x as [sx|sx| |sx mx ex], y as [sy|sy| |sy my ey];
    try reflexivity; rewrite (xorb_comm sx sy); try reflexivity.
  now rewrite (Pos.mul_comm mx my), (Z.add_comm ex ey).
Qed.

Lemma ltb_leb (x y : spec_float) : SFltb x y = true -> SFleb x y = true.
Proof. unfold SFltb, SFleb. now destruct (SFcompare x y) as [[| |]|]. Qed.

Lemma ltb_not_leb (x y : spec_float) : SFltb x y = true -> SFleb y x = false.
Proof.
  unfold SFltb, SFleb, SFcompare.
  destruct x as [[|]|[|]| |[|] mx ex], y as [[|]|[|]| |[|] my ey];
    try discriminate; try reflexivity; by_compare.
Qed.

Lemma eqb_zero (x : spec_float) : SFeqb x (S754_zero false) = sf_zero x.
Proof. now destruct x as [[|]|[|]| |[|] mx ex]. Qed.

Lemma mul_zero_r (x z : spec_float) :
  sf_zero z = true -> sf_zero_or_nan (SF64mul x z) = true.
Proof. now destruct x as [sx|sx| |sx mx ex], z as [sz|sz| |sz mz ez]. Qed.

Lemma mul_zero_zero (x z : spec_float) :
  sf_zero x = true -> sf_zero z = true -> sf_zero (SF64mul x z) = true.
Proof. now destruct x as [sx|sx| |sx mx ex], z as [sz|sz| |sz mz ez]. Qed.

Lemma add_zero_zero (x z : spec_float) :
  sf_zero x = true -> sf_zero z = true -> sf_zero (SF64add x z) = true.
Proof. now destruct x as [[|]|sx| |sx mx ex], z as [[|]|sz| |sz mz ez]. Qed.

Lemma add_zero_or_nan (x z : spec_float) :
  sf_zero_or_nan x = true -> sf_zero_or_nan z = true ->
  sf_zero_or_nan (SF64add x z) = true.
Proof. now destruct x as [[|]|sx| |sx mx ex], z as [[|]|sz| |sz mz ez]. Qed.

Lemma sqrt_zero (x : spec_float) : sf_zero x = true -> sf_zero (SF64sqrt x) = true.
Proof. now destruct x as [sx|sx| |sx mx ex]. Qed.

Lemma div_zero_or_nan (x z : spec_float) :
  sf_zero_or_nan x = true -> sf_zero_or_nan z = true -> SF64div x z = S754_nan.
Proof. now destruct x as [sx|sx| |sx mx ex], z as [sz|sz| |sz mz ez]. Qed.




End SF.

Lemma Prim2SF_nan : Prim2SF nan = S754_nan.
Proof. reflexivity. Qed.

Lemma Prim2SF_zero : Prim2SF 0%float = S754_zero false.
Proof. reflexivity. Qed.

Lemma Prim2SF_is_nan (x : float) : Prim2SF x = S754_nan -> x = nan.
Proof. intros E. apply Prim2SF_inj. now rewrite E. Qed.

#[export] Instance binary64_laws : JSLaws float.
Proof.
split; cbn.
- intros x y z. rewrite !ltb_spec. intros Hxy Hyz. exact (SF.ltb_trans _ _ _ Hyz Hxy).
- intros x y z Hy. rewrite !ltb_spec. apply SF.ltb_cotrans.
  intros E. apply Hy. now apply Prim2SF_is_nan.
- intros x. rewrite ltb_spec. apply SF.ltb_irrefl.
- intros x. rewrite ltb_spec. change (SFltb (Prim2SF x) S754_nan = false).
  unfold SFltb, SFcompare. now destruct (Prim2SF x).
- intros x. rewrite ltb_spec. reflexivity.
- intros E. apply (f_equal Prim2SF) in E. discriminate E.
- intros x y. apply Prim2SF_inj. rewrite !mul_spec. apply SF.mul_comm.
Qed.

(** ** The similarity loop *)

Section SimilarityFacts.

Context {num : Type} `{JSNumber num}.

Lemma read_middle (p r : list num) (x : num) : read (p ++ x :: r) (length p) = x.
Proof. unfold read. apply nth_middle. Qed.

Lemma similarityLoop_offset (r1 : list num) :
  forall (r2 p1 p2 : list num) (s : sums),
    length p1 = length p2 ->
    length r1 = length r2 ->
    fold_left (accumulate (p1 ++ r1) (p2 ++ r2)) (seq (length p1) (length r1)) s
    = pairSums r1 r2 s.
Proof.
  induction r1 as [|x r1 IH]; intros [|y r2] p1 p2 s Hp Hr; try discriminate Hr.
  - reflexivity.
  - cbn [length seq fold_left pairSums combine].
    unfold accumulate at 2. rewrite read_middle.
    rewrite Hp at 1 2 3 4. rewrite read_middle.
    replace (p1 ++ x :: r1) with ((p1 ++ [x]) ++ r1) by now rewrite <- app_assoc.
    replace (p2 ++ y :: r2) with ((p2 ++ [y]) ++ r2) by now rewrite <- app_assoc.
    replace (S (length p2)) with (length (p1 ++ [x]))
      by (rewrite length_app; cbn; lia).
    rewrite IH.
    + reflexivity.
    + rewrite !length_app. cbn. lia.
    + now injection Hr.
Qed.

(** With arrays of one length no read is past the end: the loop is the
    fold over the pairs of components. *)
Lemma similarityLoop_combine (features1 features2 : list num) :
  length features1 = length features2 ->
  similarityLoop features1 features2
  = pairSums features1 features2 (mkSums js_zero js_zero js_zero).
Proof.
  intros Hlen. unfold similarityLoop.
  exact (similarityLoop_offset features1 features2 [] [] _ eq_refl Hlen).
Qed.

Lemma calculateSimilarity_mismatch (features1 features2 : list num) :
  length features1 <> length features2 ->
  calculateSimilarity features1 features2 = js_zero.
Proof.
  intros Hlen. unfold calculateSimilarity.
  apply Nat.eqb_neq in Hlen. now rewrite Hlen.
Qed.

Lemma calculateSimilarity_same_length (features1 features2 : list num) :
  length features1 = length features2 ->
  calculateSimilarity features1 features2
  = let s := pairSums features1 features2 (mkSums js_zero js_zero js_zero) in
    js_div (dotProduct s) (js_mul (js_sqrt (norm1 s)) (js_sqrt (norm2 s))).
Proof.
  intros Hlen. unfold calculateSimilarity.
  rewrite (proj2 (Nat.eqb_eq _ _) Hlen). cbn [negb].
  now rewrite similarityLoop_combine.
Qed.



Context `{!JSLaws num}.

Lemma pairSums_swap (l1 : list num) :
  forall (l2 : list num) (s : sums),
    pairSums l2 l1 (swapNorms s) = swapNorms (pairSums l1 l2 s).
Proof.
  induction l1 as [|x l1 IH]; intros [|y l2] s; try reflexivity.
  unfold pairSums in *. cbn [combine fold_left].
  rewrite <- IH. f_equal.
  unfold accumulatePair, swapNorms; cbn.
  now rewrite (js_mul_comm y x).
Qed.

Lemma calculateSimilarity_comm (a b : list num) :
  calculateSimilarity a b = calculateSimilarity b a.
Proof.
  destruct (Nat.eq_dec (length a) (length b)) as [E|N].
  - rewrite (calculateSimilarity_same_length a b E).
    rewrite (calculateSimilarity_same_length b a (eq_sym E)).
    change (mkSums js_zero js_zero js_zero)
      with (swapNorms (mkSums js_zero js_zero js_zero)) at 2.
    cbv zeta. rewrite pairSums_swap. cbn.
    now rewrite js_mul_comm.
  - rewrite !calculateSimilarity_mismatch; auto.
Qed.

End SimilarityFacts.

(** ** The matching loop *)

Section MatcherFacts.

Context {num : Type} `{JSNumber num} `{!JSLaws num}.

Implicit Types (q : list num) (rows : list (painting num)) (b : best num).

Lemma js_gt_not_nan (x y : num) : js_gt x y = true -> x <> js_nan.
Proof. intros G E. subst x. rewrite js_gt_nan_l in G. discriminate. Qed.

Lemma unbeaten_snoc_ineligible q rows (p : painting num) h :
  features p = None -> unbeaten q rows h -> unbeaten q (rows ++ [p]) h.
Proof.
  intros Hp Hu p' v Hin Hv. apply in_app_or in Hin as [Hin|[<-|[]]].
  - eauto.
  - congruence.
Qed.

Lemma unbeaten_snoc_loser q rows (p : painting num) v h :
  features p = Some v -> js_gt (calculateSimilarity q v) h = false ->
  unbeaten q rows h -> unbeaten q (rows ++ [p]) h.
Proof.
  intros Hp Hs Hu p' v' Hin Hv'. apply in_app_or in Hin as [Hin|[<-|[]]].
  - eauto.
  - congruence.
Qed.

Lemma unbeaten_snoc_winner q rows (p : painting num) v h :
  features p = Some v -> js_gt (calculateSimilarity q v) h = true ->
  unbeaten q rows h -> unbeaten q (rows ++ [p]) (calculateSimilarity q v).
Proof.
  intros Hp Hs Hu p' v' Hin Hv'. apply in_app_or in Hin as [Hin|[<-|[]]].
  - destruct (js_gt (calculateSimilarity q v') (calculateSimilarity q v)) eqn:G; trivial.
    pose proof (Hu p' v' Hin Hv') as Hc.
    rewrite (js_gt_trans _ _ _ G Hs) in Hc. discriminate.
  - replace v' with v by congruence. apply js_gt_irrefl.
Qed.

Lemma strictlyBelow_winner q rows v h :
  js_gt (calculateSimilarity q v) h = true ->
  unbeaten q rows h -> strictlyBelow q rows (calculateSimilarity q v).
Proof.
  intros Hs Hu p' v' Hin Hv' Hnan.
  destruct (js_gt_cotrans _ _ Hnan Hs) as [G|G]; trivial.
  rewrite (Hu p' v' Hin Hv') in G. discriminate.
Qed.

Lemma scanRows_snoc q rows (p : painting num) :
  scanRows q (rows ++ [p]) = compareWith q (scanRows q rows) p.
Proof. unfold scanRows. now rewrite fold_left_app. Qed.

(** The loop invariant. *)
Lemma scanRows_scanned q rows : scanned q rows (scanRows q rows).
Proof.
  induction rows as [|p rows IH] using rev_ind.
  - apply scanned_none. intros p v [].
  - rewrite scanRows_snoc. unfold compareWith.
    destruct (features p) as [v|] eqn:Hp.
    + cbv zeta.
      destruct (js_gt (calculateSimilarity q v) (highestSimilarity (scanRows q rows))) eqn:G.
      * (* the new candidate takes the lead *)
        assert (Hu : unbeaten q rows (highestSimilarity (scanRows q rows)))
          by (destruct IH; assumption).
        apply scanned_some with (before := rows) (after := []); trivial.
        -- destruct IH as [_|before after p0 v0 _ _ Hpos _ _]; cbn in G; trivial.
           exact (js_gt_trans _ _ _ G Hpos).
        -- eapply strictlyBelow_winner; eassumption.
        -- eapply unbeaten_snoc_winner; eassumption.
      * (* the running best stands *)
        destruct IH as [Hu|before after p0 v0 Hrows Hp0 Hpos Hbelow Hu]; cbn in G.
        -- apply scanned_none. eapply unbeaten_snoc_loser; eassumption.
        -- apply scanned_some with (before := before) (after := after ++ [p]); trivial.
           ++ rewrite Hrows, <- app_assoc. reflexivity.
           ++ eapply unbeaten_snoc_loser; eassumption.
    + destruct IH as [Hu|before after p0 v0 Hrows Hp0 Hpos Hbelow Hu].
      * apply scanned_none. now apply unbeaten_snoc_ineligible.
      * apply scanned_some with (before := before) (after := after ++ [p]); trivial.
        -- rewrite Hrows, <- app_assoc. reflexivity.
        -- now apply unbeaten_snoc_ineligible.
Qed.

Lemma respond_none (t h : num) :
  respond t (mkBest None h) = Returns (NoMatch h).
Proof. reflexivity. Qed.

Lemma respond_some (t h : num) (p : painting num) :
  respond t (mkBest (Some p) h)
  = if js_gt h t then Returns (Match p h) else Returns (NoMatch h).
Proof. unfold respond. cbn. now destruct (js_gt h t). Qed.

(** The guard [bestMatch && ...] protects every read of [bestMatch.id]:
    the handler's decision never throws, and answers with the running
    best score. *)
Lemma matchPaintings_returns (t : num) q rows :
  exists r, matchPaintings t q rows = Returns r
            /\ score r = highestSimilarity (scanRows q rows).
Proof.
  unfold matchPaintings.
  destruct (scanRows q rows) as [[p|] h].
  - rewrite respond_some. destruct (js_gt h t); eexists; split; reflexivity.
  - rewrite respond_none. eexists; split; reflexivity.
Qed.

Lemma observed_in q rows (p : painting num) v :
  In p rows -> features p = Some v ->
  In (calculateSimilarity q v) (observedScores q rows).
Proof.
  intros Hin Hv. unfold observedScores. apply in_flat_map.
  exists p. split; trivial. rewrite Hv. now left.
Qed.

(** The running best is the initial [0] or a strictly positive score of
    a candidate. *)
Lemma highest_zero_or_positive q rows :
  let h := highestSimilarity (scanRows q rows) in
  (bestMatch (scanRows q rows) = None /\ h = js_zero)
  \/ (js_gt h js_zero = true /\ In h (observedScores q rows)).
Proof.
  destruct (scanRows_scanned q rows) as [_|before after p v Hrows Hp Hpos _ _]; cbn.
  - now left.
  - right. split; trivial. apply observed_in with (p := p); trivial.
    rewrite Hrows. apply in_elt.
Qed.

Lemma highest_unbeaten q rows :
  unbeaten q rows (highestSimilarity (scanRows q rows)).
Proof. now destruct (scanRows_scanned q rows). Qed.

Lemma highest_not_nan q rows : highestSimilarity (scanRows q rows) <> js_nan.
Proof.
  destruct (highest_zero_or_positive q rows) as [[_ E]|[G _]].
  - rewrite E. apply js_zero_not_nan.
  - eapply js_gt_not_nan; eassumption.
Qed.

(** What a positive answer tells about the rows. *)
Lemma match_inversion (t : num) q rows (p : painting num) (s : num) :
  matchPaintings t q rows = Returns (Match p s) ->
  exists before after v,
    rows = before ++ p :: after
    /\ features p = Some v
    /\ s = calculateSimilarity q v
    /\ js_gt s js_zero = true
    /\ js_gt s t = true
    /\ strictlyBelow q before s
    /\ unbeaten q rows s.
Proof.
  unfold matchPaintings.
  destruct (scanRows_scanned q rows) as [_|before after p0 v Hrows Hp Hpos Hbelow Hu].
  - rewrite respond_none. discriminate.
  - rewrite respond_some.
    destruct (js_gt (calculateSimilarity q v) t) eqn:G; intros E; inversion E; subst p0 s.
    exists before, after, v. repeat split; trivial.
Qed.

(** When no candidate exceeds the threshold the answer is negative. *)
Lemma nomatch_when_unbeaten (t : num) q rows :
  unbeaten q rows t ->
  matchPaintings t q rows = Returns (NoMatch (highestSimilarity (scanRows q rows))).
Proof.
  intros Ht. unfold matchPaintings.
  destruct (scanRows_scanned q rows) as [_|before after p v Hrows Hp _ _ _];
    cbn [highestSimilarity].
  - apply respond_none.
  - rewrite respond_some, (Ht p v); trivial.
    rewrite Hrows. apply in_elt.
Qed.

(** When some candidate exceeds a threshold that is not below [0], the
    answer is positive. *)
Lemma match_when_exceeded (t : num) q rows (p : painting num) v :
  js_gt js_zero t = false ->
  In p rows -> features p = Some v -> js_gt (calculateSimilarity q v) t = true ->
  exists p' s, matchPaintings t q rows = Returns (Match p' s).
Proof.
  intros Ht Hin Hv G. unfold matchPaintings.
  destruct (scanRows_scanned q rows) as [Hu|before after p0 v0 _ _ Hpos _ Hu].
  - destruct (js_gt_cotrans _ _ js_zero_not_nan G) as [G'|G'].
    + rewrite (Hu p v Hin Hv) in G'. discriminate.
    + rewrite Ht in G'. discriminate.
  - rewrite respond_some.
    destruct (js_gt_cotrans _ _ (@js_gt_not_nan _ _ Hpos) G) as [G'|G'].
    + rewrite (Hu p v Hin Hv) in G'. discriminate.
    + rewrite G'. eauto.
Qed.

End MatcherFacts.

(** ** Zero vectors over binary64 *)

Lemma isZero_sf (x : float) : isZero x <-> sf_zero (Prim2SF x) = true.
Proof. unfold isZero. rewrite eqb_spec. now rewrite <- SF.eqb_zero. Qed.

Lemma zeroOrNaN_sf (x : float) : zeroOrNaN x <-> sf_zero_or_nan (Prim2SF x) = true.
Proof.
  unfold zeroOrNaN. rewrite isZero_sf. split.
  - intros [Z | ->]; [|reflexivity]. now destruct (Prim2SF x).
  - destruct (Prim2SF x) eqn:E; try discriminate; intros _.
    + now left.
    + right. now apply Prim2SF_is_nan.
Qed.

Lemma isZero_zeroOrNaN (x : float) : isZero x -> zeroOrNaN x.
Proof. now left. Qed.

Lemma mul_isZero_r (x z : float) : isZero z -> zeroOrNaN (x * z)%float.
Proof. rewrite isZero_sf, zeroOrNaN_sf, mul_spec. apply SF.mul_zero_r. Qed.

Lemma mul_isZero (x z : float) : isZero x -> isZero z -> isZero (x * z)%float.
Proof. rewrite !isZero_sf, mul_spec. apply SF.mul_zero_zero. Qed.

Lemma add_isZero (x z : float) : isZero x -> isZero z -> isZero (x + z)%float.
Proof. rewrite !isZero_sf, add_spec. apply SF.add_zero_zero. Qed.

Lemma add_zeroOrNaN (x z : float) : zeroOrNaN x -> zeroOrNaN z -> zeroOrNaN (x + z)%float.
Proof. rewrite !zeroOrNaN_sf, add_spec. apply SF.add_zero_or_nan. Qed.

Lemma sqrt_isZero (x : float) : isZero x -> isZero (PrimFloat.sqrt x).
Proof. rewrite !isZero_sf, sqrt_spec. apply SF.sqrt_zero. Qed.

Lemma div_zeroOrNaN (x z : float) : zeroOrNaN x -> zeroOrNaN z -> (x / z)%float = nan.
Proof.
  rewrite !zeroOrNaN_sf. intros Hx Hz. apply Prim2SF_inj.
  rewrite div_spec. now apply SF.div_zero_or_nan.
Qed.

Lemma isZero_literal : isZero 0%float.
Proof. reflexivity. Qed.

(** Against a vector of zeros the dot product stays a zero or [NaN], and
    the second norm stays a zero. *)
Lemma pairSums_zero_vector (w : list float) :
  forall (z : list float) (s : sums),
    Forall isZero z ->
    zeroOrNaN (dotProduct s) -> isZero (norm2 s) ->
    zeroOrNaN (dotProduct (pairSums w z s)) /\ isZero (norm2 (pairSums w z s)).
Proof.
  induction w as [|x w IH]; intros [|y z] s Hz Hd Hn; try (now split).
  inversion Hz as [|? ? Hy Hz']; subst.
  unfold pairSums. cbn [combine fold_left]. apply IH; trivial; cbn.
  - apply add_zeroOrNaN; trivial. now apply mul_isZero_r.
  - apply add_isZero; trivial. now apply mul_isZero.
Qed.

Lemma calculateSimilarity_zero_vector (w z : list float) :
  length w = length z -> Forall isZero z -> calculateSimilarity w z = nan.
Proof.
  intros Hlen Hz. rewrite (calculateSimilarity_same_length w z Hlen). cbv zeta.
  destruct (pairSums_zero_vector w (mkSums 0 0 0)%float Hz) as [Hd Hn].
  - apply isZero_zeroOrNaN, isZero_literal.
  - apply isZero_literal.
  - apply div_zeroOrNaN; trivial.
    apply mul_isZero_r. now apply sqrt_isZero.
Qed.

(** ** A vector against itself, over binary64 *)



(** ** Comparisons of binary64 values *)

Lemma positive_nonnegative (s : float) : (0 <? s)%float = true -> (0 <=? s)%float = true.
Proof. rewrite ltb_spec, leb_spec. apply SF.ltb_leb. Qed.

Lemma positive_not_nonpositive (s : float) :
  (0 <? s)%float = true -> (s <=? 0)%float = false.
Proof. rewrite ltb_spec, leb_spec. apply SF.ltb_not_leb. Qed.

Lemma positive_not_nan (s : float) : (0 <? s)%float = true -> s <> nan.
Proof. intros G E. subst s. discriminate G. Qed.

Lemma nan_is_not_zero : nan <> 0%float.
Proof. intros E. apply (f_equal Prim2SF) in E. discriminate E. Qed.

(** * The statements of the design document *)

Unset Implicit Arguments.

(** C1, as the code has it: against a vector [z] of zeros that is as long
    as [w], the similarity function does not return [0]: it returns
    [NaN], the value of [0 / 0], which no comparison [NaN > h] of the
    matching loop accepts. *)
Theorem similarity_zero_vector_is_nan (w z : list float) :
  length w = length z ->
  Forall isZero z ->
  calculateSimilarity w z = nan
  /\ forall h : float, js_gt (calculateSimilarity w z) h = false.
Proof.
  intros Hlen Hz.
  rewrite (calculateSimilarity_zero_vector w Hlen Hz).
  split; [reflexivity|]. intros h. exact (@js_gt_nan_l float _ _ h).
Qed.

Lemma similarity_zero_vector_is_nan_witness :
  calculateSimilarity [1; 2]%float [0; -0]%float = nan
  /\ forall h : float, js_gt (calculateSimilarity [1; 2]%float [0; -0]%float) h = false.
Proof.
  apply (similarity_zero_vector_is_nan [1; 2]%float [0; -0]%float).
  - reflexivity.
  - repeat constructor.
Defined.

(** C1 fails as stated: [[0; 0]] has norm zero and the length of
    [[1; 2]], and their similarity is [NaN], which is not [0]. *)
Lemma similarity_zero_vector_not_zero :
  length [1; 2]%float = length [0; 0]%float
  /\ Forall isZero [0; 0]%float
  /\ calculateSimilarity [1; 2]%float [0; 0]%float = nan
  /\ nan <> 0%float.
Proof.
  split; [reflexivity|]. split; [repeat constructor|].
  split; [reflexivity|]. exact nan_is_not_zero.
Qed.

(** C2, as the code has it: when no eligible candidate scores strictly
    above the threshold, the answer is [NoMatch] and carries the greatest
    of [0] and the candidates' scores: the score is the initial [0] or a
    strictly positive score of a candidate, and no candidate scores
    strictly above it. *)
Theorem nomatch_carries_greatest_of_zero_and_scores
  (t : float) (q : list float) (rows : list (painting float)) :
  unbeaten q rows t ->
  exists s : float,
    matchPaintings t q rows = Returns (NoMatch s)
    /\ (s = 0%float \/ (In s (observedScores q rows) /\ (0 <? s)%float = true))
    /\ unbeaten q rows s.
Proof.
  intros Ht. exists (highestSimilarity (scanRows q rows)).
  split; [now apply nomatch_when_unbeaten|].
  split; [|apply highest_unbeaten].
  destruct (highest_zero_or_positive q rows) as [[_ E]|[G Hin]]; [now left|right].
  split; trivial.
Qed.

Lemma unbeaten_greatWave :
  unbeaten [1; 0]%float [greatWave] confidenceThreshold.
Proof.
  intros p v [<-|[]] Hv. injection Hv as <-. reflexivity.
Qed.

Lemma nomatch_carries_greatest_of_zero_and_scores_witness :
  exists s : float,
    matchPaintings confidenceThreshold [1; 0]%float [greatWave] = Returns (NoMatch s)
    /\ (s = 0%float
        \/ (In s (observedScores [1; 0]%float [greatWave]) /\ (0 <? s)%float = true))
    /\ unbeaten [1; 0]%float [greatWave] s.
Proof.
  apply (nomatch_carries_greatest_of_zero_and_scores
           confidenceThreshold [1; 0]%float [greatWave]).
  exact unbeaten_greatWave.
Defined.

(** C2 fails as stated: the only candidate is eligible and scores [-1],
    which is not above the threshold; the answer is [NoMatch] with score
    [0], which is not the maximum of the observed scores, [-1]. *)
Lemma nomatch_score_not_maximum_observed :
  observedScores [1; 0]%float [greatWave] = [(-1)%float]
  /\ (confidenceThreshold <? -1)%float = false
  /\ recognize [1; 0]%float [greatWave] = Returns (NoMatch 0%float)
  /\ (0 =? -1)%float = false.
Proof. repeat split; reflexivity. Qed.

(** C3: for a threshold that is not below [0], as the handler's [0.6],
    the answer is [Match] exactly when some eligible candidate scores
    strictly above the threshold; a best score equal to the threshold
    gives [NoMatch]. *)
Theorem match_iff_candidate_exceeds_threshold
  (t : float) (q : list float) (rows : list (painting float)) :
  (t <? 0)%float = false ->
  ((exists p s, matchPaintings t q rows = Returns (Match p s))
   <-> (exists p v, In p rows /\ features p = Some v
                    /\ (t <? calculateSimilarity q v)%float = true))
  /\ (highestSimilarity (scanRows q rows) = t ->
      matchPaintings t q rows = Returns (NoMatch t)).
Proof.
  intros Ht. split; [split|].
  - intros (p & s & E).
    destruct (match_inversion _ _ _ E)
      as (before & after & v & Hrows & Hv & -> & _ & G & _).
    exists p, v. repeat split; trivial. rewrite Hrows. apply in_elt.
  - intros (p & v & Hin & Hv & G).
    exact (@match_when_exceeded float _ _ t q rows p v Ht Hin Hv G).
  - unfold matchPaintings. destruct (scanRows q rows) as [[p|] h]; cbn [highestSimilarity].
    + intros ->. rewrite respond_some.
      now rewrite (@js_gt_irrefl float _ _ t).
    + intros ->. apply respond_none.
Qed.

Lemma match_iff_candidate_exceeds_threshold_witness :
  ((exists p s,
       matchPaintings confidenceThreshold [1; 0]%float [starryNight; monaLisa]
       = Returns (Match p s))
   <-> (exists p v, In p [starryNight; monaLisa] /\ features p = Some v
                    /\ (confidenceThreshold <? calculateSimilarity [1; 0]%float v)%float
                       = true))
  /\ (highestSimilarity (scanRows [1; 0]%float [starryNight; monaLisa])
      = confidenceThreshold ->
      matchPaintings confidenceThreshold [1; 0]%float [starryNight; monaLisa]
      = Returns (NoMatch confidenceThreshold)).
Proof.
  apply (match_iff_candidate_exceeds_threshold
           confidenceThreshold [1; 0]%float [starryNight; monaLisa]).
  reflexivity.
Defined.

(** C4: the score of every answer is at least [0]: it is the initial [0]
    or a strictly positive score of a candidate.  The entry of a [Match]
    scores strictly above [0]; a candidate whose score is at most [0], or
    is [NaN], is never the entry of the answer. *)
Theorem score_nonnegative_and_selection_positive
  (t : float) (q : list float) (rows : list (painting float)) :
  exists r : MatchResult float,
    matchPaintings t q rows = Returns r
    /\ (0 <=? score r)%float = true
    /\ (score r = 0%float
        \/ (In (score r) (observedScores q rows) /\ (0 <? score r)%float = true))
    /\ (forall p s, r = Match p s ->
          exists v, features p = Some v /\ calculateSimilarity q v = s
                    /\ (0 <? s)%float = true)
    /\ (forall p v, features p = Some v ->
          (calculateSimilarity q v <=? 0)%float = true \/ calculateSimilarity q v = nan ->
          forall s, r <> Match p s).
Proof.
  destruct (matchPaintings_returns t q rows) as (r & E & Hs).
  assert (Hsel : forall p s, r = Match p s ->
            exists v, features p = Some v /\ calculateSimilarity q v = s
                      /\ (0 <? s)%float = true).
  { intros p s ->.
    destruct (match_inversion _ _ _ E)
      as (before & after & v & _ & Hv & -> & G & _).
    exists v. repeat split; trivial. }
  exists r. split; trivial. rewrite Hs.
  destruct (highest_zero_or_positive q rows) as [[_ Z]|[G Hin]].
  - rewrite Z. split; [reflexivity|]. split; [now left|]. split; [exact Hsel|].
    intros p v Hv Hlow s ->.
    destruct (Hsel p s eq_refl) as (v' & Hv' & <- & G).
    replace v' with v in G by congruence.
    destruct Hlow as [L|N].
    + rewrite (positive_not_nonpositive G) in L. discriminate.
    + exact (positive_not_nan G N).
  - split; [now apply positive_nonnegative|]. split; [now right|]. split; [exact Hsel|].
    intros p v Hv Hlow s ->.
    destruct (Hsel p s eq_refl) as (v' & Hv' & <- & G').
    replace v' with v in G' by congruence.
    destruct Hlow as [L|N].
    + rewrite (positive_not_nonpositive G') in L. discriminate.
    + exact (positive_not_nan G' N).
Qed.

(** C5: vectors of different lengths have similarity [0]; the function
    reads no component and returns the literal. *)
Theorem similarity_length_mismatch (a b : list float) :
  length a <> length b -> calculateSimilarity a b = 0%float.
Proof. exact (@calculateSimilarity_mismatch float _ a b). Qed.

Lemma similarity_length_mismatch_witness :
  calculateSimilarity [0.6; 0.8]%float [1; 0; 0]%float = 0%float.
Proof.
  apply (similarity_length_mismatch [0.6; 0.8]%float [1; 0; 0]%float).
  cbn. lia.
Defined.

(** C6: over an empty sequence of rows, and over rows none of which has
    a feature vector, the answer is [NoMatch] with score [0], whatever
    the threshold. *)
Theorem match_without_candidates
  (t : float) (q : list float) (rows : list (painting float)) :
  matchPaintings t q [] = Returns (NoMatch 0%float)
  /\ (Forall (fun p => features p = None) rows ->
      matchPaintings t q rows = Returns (NoMatch 0%float)).
Proof.
  split; [reflexivity|]. intros Hnone.
  unfold matchPaintings.
  assert (E : scanRows q rows = noBest).
  { unfold scanRows. generalize (@noBest float _).
    induction Hnone as [|p rows Hp _ IH]; intros b; cbn [fold_left]; trivial.
    unfold compareWith at 2. rewrite Hp. apply IH. }
  rewrite E. reflexivity.
Qed.

Lemma match_without_candidates_witness :
  matchPaintings confidenceThreshold [1; 0]%float [] = Returns (NoMatch 0%float)
  /\ (Forall (fun p => features p = None) [americanGothic] ->
      matchPaintings confidenceThreshold [1; 0]%float [americanGothic]
      = Returns (NoMatch 0%float)).
Proof.
  exact (match_without_candidates confidenceThreshold [1; 0]%float [americanGothic]).
Defined.

(** C7: the entry of a [Match] is the first row, in input order, that
    attains the best score: every eligible row before it scores strictly
    below (or [NaN]), and no eligible row after it scores strictly
    above.  The answer is a function of the query, the rows in their
    order and the threshold. *)
Theorem first_encountered_wins
  (t : float) (q : list float) (rows : list (painting float))
  (p : painting float) (s : float) :
  matchPaintings t q rows = Returns (Match p s) ->
  exists before after v,
    rows = before ++ p :: after
    /\ features p = Some v
    /\ calculateSimilarity q v = s
    /\ strictlyBelow q before s
    /\ unbeaten q after s.
Proof.
  intros E.
  destruct (match_inversion _ _ _ E)
    as (before & after & v & Hrows & Hv & Hs & _ & _ & Hbelow & Hu).
  exists before, after, v. repeat split; auto.
  intros p' v' Hin Hv'. apply (Hu p' v'); trivial.
  rewrite Hrows. apply in_or_app. right. now right.
Qed.

Lemma first_encountered_wins_witness :
  exists before after v,
    [monaLisa; starryNight; starryNightCopy] = before ++ starryNight :: after
    /\ features starryNight = Some v
    /\ calculateSimilarity [1; 0]%float v = 1%float
    /\ strictlyBelow [1; 0]%float before 1%float
    /\ unbeaten [1; 0]%float after 1%float.
Proof.
  apply (first_encountered_wins confidenceThreshold [1; 0]%float
           [monaLisa; starryNight; starryNightCopy] starryNight 1%float).
  reflexivity.
Defined.

(** C8 is about the loop together with its decoding step; it is stated
    with the lemmas on the stored rows, in the section on the route
    below. *)




(** C10: the similarity function is symmetric (over binary64, where a
    [NaN] result is [NaN] both ways). *)
Theorem similarity_symmetric (a b : list float) :
  calculateSimilarity a b = calculateSimilarity b a.
Proof. exact (@calculateSimilarity_comm float _ _ a b). Qed.

(** ** The scenarios of the design document, run on binary64 *)

Example scenario_match :
  matchPaintings 0.6%float [1; 0]%float [starryNight; monaLisa]
  = Returns (Match starryNight 1%float).
Proof. reflexivity. Qed.

Example scenario_nomatch :
  matchPaintings 0.9%float [0.6; 0.8]%float [starryNight; monaLisa]
  = Returns (NoMatch 0.8%float).
Proof. reflexivity. Qed.

(** Over binary64 a similarity can also leave [[-1, 1]]: here the first
    norm underflows to [0] and the quotient is [Infinity], which the
    handler accepts as a confidence. *)
Example similarity_can_be_infinite :
  calculateSimilarity [1e-200]%float [1e150]%float = infinity
  /\ recognize [1e-200]%float [entry 7 "Guernica"%string (Some [1e150]%float)]
     = Returns (Match (entry 7 "Guernica"%string (Some [1e150]%float)) infinity).
Proof. split; reflexivity. Qed.

(** * Further properties of the code *)

(** ** Rows that cannot take the lead *)

Section ContenderFacts.

Context {num : Type} `{JSNumber num} `{!JSLaws num}.

Implicit Types (q : list num) (rows : list (painting num)) (b : best num).

Lemma leads_noBest : leads (@noBest num _).
Proof. now left. Qed.

Lemma compareWith_leads q b (p : painting num) : leads b -> leads (compareWith q b p).
Proof.
  intros Hb. unfold compareWith.
  destruct (features p) as [v|]; trivial. cbv zeta.
  destruct (js_gt (calculateSimilarity q v) (highestSimilarity b)) eqn:G; trivial.
  right. cbn. destruct Hb as [Z|P].
  - now rewrite <- Z.
  - exact (js_gt_trans _ _ _ G P).
Qed.

Lemma compareWith_loser q b (p : painting num) :
  leads b -> canWin q p = false -> compareWith q b p = b.
Proof.
  intros Hb Hp. unfold compareWith, canWin in *.
  destruct (features p) as [v|]; trivial. cbv zeta.
  destruct (js_gt (calculateSimilarity q v) (highestSimilarity b)) eqn:G; trivial.
  destruct Hb as [Z|P].
  - rewrite Z, Hp in G. discriminate.
  - rewrite (js_gt_trans _ _ _ G P) in Hp. discriminate.
Qed.

Lemma fold_compareWith_leads q rows :
  forall b, leads b -> leads (fold_left (compareWith q) rows b).
Proof.
  induction rows as [|p rows IH]; intros b Hb; cbn; trivial.
  apply IH. now apply compareWith_leads.
Qed.

Lemma fold_compareWith_filter q rows :
  forall b, leads b ->
            fold_left (compareWith q) (filter (canWin q) rows) b
            = fold_left (compareWith q) rows b.
Proof.
  induction rows as [|p rows IH]; intros b Hb; cbn; trivial.
  destruct (canWin q p) eqn:Hp; cbn.
  - apply IH. now apply compareWith_leads.
  - rewrite (compareWith_loser q b p Hb Hp). now apply IH.
Qed.

Lemma scanRows_filter_canWin q rows :
  scanRows q (filter (canWin q) rows) = scanRows q rows.
Proof. apply fold_compareWith_filter, leads_noBest. Qed.

Lemma scanRows_remove_loser q (before after : list (painting num)) (p : painting num) :
  canWin q p = false ->
  scanRows q (before ++ p :: after) = scanRows q (before ++ after).
Proof.
  intros Hp. unfold scanRows. rewrite !fold_left_app. cbn [fold_left].
  rewrite compareWith_loser; trivial.
  apply fold_compareWith_leads, leads_noBest.
Qed.

Lemma canWin_mismatch q (p : painting num) v :
  features p = Some v -> length q <> length v -> canWin q p = false.
Proof.
  intros Hv Hlen. unfold canWin. rewrite Hv.
  rewrite (calculateSimilarity_mismatch _ _ Hlen). apply js_gt_irrefl.
Qed.

(** Lowering the threshold keeps a positive answer; raising it keeps a
    negative one. *)
Lemma respond_threshold (t t' : num) b :
  js_gt t t' = true ->
  (forall p s, respond t b = Returns (Match p s) -> respond t' b = Returns (Match p s))
  /\ (forall s, respond t' b = Returns (NoMatch s) -> respond t b = Returns (NoMatch s)).
Proof.
  intros Hlower. destruct b as [[p0|] h].
  - rewrite !respond_some. split.
    + intros p s. destruct (js_gt h t) eqn:G; [|discriminate].
      now rewrite (js_gt_trans _ _ _ G Hlower).
    + intros s. destruct (js_gt h t) eqn:G.
      * now rewrite (js_gt_trans _ _ _ G Hlower).
      * now destruct (js_gt h t').
  - rewrite !respond_none. split; [discriminate|trivial].
Qed.

End ContenderFacts.

(** ** The answer and the order of the rows *)

Lemma sf_positive_antisym (x y : spec_float) :
  SFltb (S754_zero false) x = true -> SFltb (S754_zero false) y = true ->
  SFltb x y = false -> SFltb y x = false -> x = y.
Proof.
  unfold SFltb, SFcompare.
  destruct x as [[|]|[|]| |[|] mx ex], y as [[|]|[|]| |[|] my ey];
    try discriminate; try reflexivity.
  change (Pos.compare_cont Eq) with Pos.compare.
  destruct (Z.compare_spec ex ey); try discriminate;
    destruct (Z.compare_spec ey ex); try discriminate; try lia.
  destruct (Pos.compare_spec mx my); try discriminate;
    destruct (Pos.compare_spec my mx); try discriminate; try lia.
  intros. now subst.
Qed.

Lemma positive_antisym (x y : float) :
  (0 <? x)%float = true -> (0 <? y)%float = true ->
  (x <? y)%float = false -> (y <? x)%float = false -> x = y.
Proof.
  rewrite !ltb_spec. intros Hx Hy Hxy Hyx.
  apply Prim2SF_inj. now apply sf_positive_antisym.
Qed.

Section OrderFacts.

Context {num : Type} `{JSNumber num} `{!JSLaws num}.

Implicit Types (q : list num) (rows : list (painting num)).

Lemma observed_from q rows (s : num) :
  In s (observedScores q rows) ->
  exists p v, In p rows /\ features p = Some v /\ s = calculateSimilarity q v.
Proof.
  unfold observedScores. intros Hin. apply in_flat_map in Hin as (p & Hp & Hs).
  destruct (features p) as [v|] eqn:Hv; [|destruct Hs].
  destruct Hs as [<-|[]]. now exists p, v.
Qed.

(** [bestMatch] is set exactly when the running best has left [0]. *)
Lemma bestMatch_truthy q rows :
  truthy (bestMatch (scanRows q rows))
  = js_gt (highestSimilarity (scanRows q rows)) js_zero.
Proof.
  destruct (scanRows_scanned q rows) as [_|before after p v _ _ Hpos _ _]; cbn.
  - symmetry. apply js_gt_irrefl.
  - now rewrite Hpos.
Qed.

(** The answer is a function of the running best and the threshold. *)
Lemma matchPaintings_shape (t : num) q rows :
  exists r, matchPaintings t q rows = Returns r
            /\ score r = highestSimilarity (scanRows q rows)
            /\ isMatch r = js_gt (highestSimilarity (scanRows q rows)) js_zero
                           && js_gt (highestSimilarity (scanRows q rows)) t.
Proof.
  rewrite <- bestMatch_truthy. unfold matchPaintings.
  destruct (scanRows q rows) as [[p|] h]; cbn [bestMatch highestSimilarity truthy].
  - rewrite respond_some. destruct (js_gt h t); eexists; repeat split.
  - rewrite respond_none. eexists; repeat split.
Qed.

End OrderFacts.

Lemma highest_permutation (q : list float) (rows rows' : list (painting float)) :
  Permutation rows rows' ->
  highestSimilarity (scanRows q rows) = highestSimilarity (scanRows q rows').
Proof.
  intros Hperm.
  pose proof (@highest_unbeaten float _ _ q rows) as Hu.
  pose proof (@highest_unbeaten float _ _ q rows') as Hu'.
  destruct (@highest_zero_or_positive float _ _ q rows) as [[_ Z]|[G Hin]];
    destruct (@highest_zero_or_positive float _ _ q rows') as [[_ Z']|[G' Hin']].
  - now rewrite Z, Z'.
  - exfalso. apply observed_from in Hin' as (p & v & Hp & Hv & E).
    apply (Permutation_in _ (Permutation_sym Hperm)) in Hp.
    specialize (Hu p v Hp Hv). rewrite <- E, Z in Hu.
    cbn in G', Hu. rewrite G' in Hu. discriminate.
  - exfalso. apply observed_from in Hin as (p & v & Hp & Hv & E).
    apply (Permutation_in _ Hperm) in Hp.
    specialize (Hu' p v Hp Hv). rewrite <- E, Z' in Hu'.
    cbn in G, Hu'. rewrite G in Hu'. discriminate.
  - apply observed_from in Hin as (p & v & Hp & Hv & E).
    apply observed_from in Hin' as (p' & v' & Hp' & Hv' & E').
    apply (Permutation_in _ Hperm) in Hp.
    apply (Permutation_in _ (Permutation_sym Hperm)) in Hp'.
    specialize (Hu p' v' Hp' Hv'). specialize (Hu' p v Hp Hv).
    rewrite <- E in Hu'. rewrite <- E' in Hu.
    apply positive_antisym; assumption.
Qed.

(** ** Statements about the matching pass *)

(** Rows without a feature vector and rows whose similarity to the query
    is not strictly positive (negative, zero or [NaN]) have no influence:
    the answer is the answer on the remaining rows. *)
Theorem rows_that_cannot_win_are_ignored
  (t : float) (q : list float) (rows : list (painting float)) :
  matchPaintings t q (filter (canWin q) rows) = matchPaintings t q rows.
Proof.
  unfold matchPaintings.
  now rewrite (@scanRows_filter_canWin float _ _ q rows).
Qed.

(** A stored vector whose length differs from the query's (another
    extractor, a truncated text) is skipped silently: the answer is the
    one obtained without that row. *)
Theorem wrong_dimension_row_is_ignored
  (t : float) (q : list float) (before after : list (painting float))
  (p : painting float) (v : list float) :
  features p = Some v ->
  length q <> length v ->
  matchPaintings t q (before ++ p :: after) = matchPaintings t q (before ++ after).
Proof.
  intros Hv Hlen. unfold matchPaintings.
  rewrite (@scanRows_remove_loser float _ _ q before after p); trivial.
  exact (@canWin_mismatch float _ _ q p v Hv Hlen).
Qed.

Lemma wrong_dimension_row_is_ignored_witness :
  matchPaintings confidenceThreshold [1; 0]%float
    ([monaLisa] ++ entry 8 "Nighthawks"%string (Some [1; 0; 0]%float) :: [starryNight])
  = matchPaintings confidenceThreshold [1; 0]%float ([monaLisa] ++ [starryNight]).
Proof.
  apply (wrong_dimension_row_is_ignored confidenceThreshold [1; 0]%float
           [monaLisa] [starryNight]
           (entry 8 "Nighthawks"%string (Some [1; 0; 0]%float)) [1; 0; 0]%float).
  - reflexivity.
  - cbn. lia.
Defined.

(** A stored vector of zeros of the right length scores [NaN] and is
    skipped as well. *)
Theorem zero_vector_row_is_ignored
  (t : float) (q : list float) (before after : list (painting float))
  (p : painting float) (z : list float) :
  features p = Some z ->
  length q = length z ->
  Forall isZero z ->
  matchPaintings t q (before ++ p :: after) = matchPaintings t q (before ++ after).
Proof.
  intros Hz Hlen Hzero. unfold matchPaintings.
  rewrite (@scanRows_remove_loser float _ _ q before after p); trivial.
  unfold canWin. rewrite Hz, (calculateSimilarity_zero_vector q Hlen Hzero).
  reflexivity.
Qed.

Lemma zero_vector_row_is_ignored_witness :
  matchPaintings confidenceThreshold [1; 0]%float
    ([monaLisa] ++ entry 9 "Black Square"%string (Some [0; 0]%float) :: [starryNight])
  = matchPaintings confidenceThreshold [1; 0]%float ([monaLisa] ++ [starryNight]).
Proof.
  apply (zero_vector_row_is_ignored confidenceThreshold [1; 0]%float
           [monaLisa] [starryNight]
           (entry 9 "Black Square"%string (Some [0; 0]%float)) [0; 0]%float).
  - reflexivity.
  - reflexivity.
  - repeat constructor.
Defined.

(** The threshold only gates the answer: under a lower threshold a
    [Match] stays the same [Match], and under a higher one a [NoMatch]
    stays the same [NoMatch]. *)
Theorem threshold_only_gates
  (t t' : float) (q : list float) (rows : list (painting float)) :
  (t' <? t)%float = true ->
  (forall p s, matchPaintings t q rows = Returns (Match p s) ->
               matchPaintings t' q rows = Returns (Match p s))
  /\ (forall s, matchPaintings t' q rows = Returns (NoMatch s) ->
                matchPaintings t q rows = Returns (NoMatch s)).
Proof.
  intros Hlower. unfold matchPaintings.
  exact (@respond_threshold float _ _ t t' (scanRows q rows) Hlower).
Qed.

Lemma threshold_only_gates_witness :
  (forall p s,
      matchPaintings confidenceThreshold [0.6; 0.8]%float [starryNight; monaLisa]
      = Returns (Match p s) ->
      matchPaintings 0.5%float [0.6; 0.8]%float [starryNight; monaLisa]
      = Returns (Match p s))
  /\ (forall s,
         matchPaintings 0.5%float [0.6; 0.8]%float [starryNight; monaLisa]
         = Returns (NoMatch s) ->
         matchPaintings confidenceThreshold [0.6; 0.8]%float [starryNight; monaLisa]
         = Returns (NoMatch s)).
Proof.
  apply (threshold_only_gates confidenceThreshold 0.5%float [0.6; 0.8]%float
           [starryNight; monaLisa]).
  reflexivity.
Defined.

(** The order in which the database returns the rows decides only which
    of several rows tied at the best score is returned: the success flag
    and the confidence of the answer are the same for every order. *)
Theorem answer_independent_of_row_order
  (t : float) (q : list float) (rows rows' : list (painting float)) :
  Permutation rows rows' ->
  exists r r' : MatchResult float,
    matchPaintings t q rows = Returns r
    /\ matchPaintings t q rows' = Returns r'
    /\ score r = score r'
    /\ isMatch r = isMatch r'.
Proof.
  intros Hperm.
  destruct (@matchPaintings_shape float _ _ t q rows) as (r & E & Hs & Hm).
  destruct (@matchPaintings_shape float _ _ t q rows') as (r' & E' & Hs' & Hm').
  exists r, r'. repeat split; trivial.
  - now rewrite Hs, Hs', (highest_permutation q rows rows' Hperm).
  - now rewrite Hm, Hm', (highest_permutation q rows rows' Hperm).
Qed.

Lemma answer_independent_of_row_order_witness :
  exists r r' : MatchResult float,
    matchPaintings confidenceThreshold [1; 0]%float [starryNight; starryNightCopy]
    = Returns r
    /\ matchPaintings confidenceThreshold [1; 0]%float [starryNightCopy; starryNight]
       = Returns r'
    /\ score r = score r'
    /\ isMatch r = isMatch r'.
Proof.
  apply (answer_independent_of_row_order confidenceThreshold [1; 0]%float
           [starryNight; starryNightCopy] [starryNightCopy; starryNight]).
  apply perm_swap.
Defined.

(** ** The route [POST /api/recognize] *)

Lemma float_ltb_trans (a b c : float) :
  (a <? b)%float = true -> (b <? c)%float = true -> (a <? c)%float = true.
Proof. intros Hab Hbc. exact (@js_gt_trans float _ _ c b a Hbc Hab). Qed.

Section RouteFacts.

Variable buffer : Type.
Variable extractFeatures : buffer -> outcome (list float).
Variable JSON_parse : String.string -> outcome (list float).
Variable pool_query : query -> outcome (list paintingRow).

Local Abbreviation compareStored' := (compareStored JSON_parse).
Local Abbreviation asPainting' := (asPainting JSON_parse).
Local Abbreviation route := (recognizeRoute extractFeatures JSON_parse pool_query).

Lemma compareStored_settled (q : list float) (rows : list paintingRow) :
  forall bm h bm' h',
    settled bm h ->
    compareStored' q rows bm h = Done (bm', h') ->
    settled bm' h'.
Proof.
  induction rows as [|p rows IH]; intros bm h bm' h' Hs; cbn [compareStored].
  - intros E. injection E as <- <-. exact Hs.
  - destruct (row_features p) as [text|]; [|now apply IH].
    destruct (nonEmpty text); [|now apply IH].
    destruct (JSON_parse text) as [v|m]; [|discriminate]. cbv zeta.
    destruct (h <? calculateSimilarity q v)%float eqn:G; [|now apply IH].
    apply IH. right. split; trivial.
    destruct Hs as [[_ ->]|[_ P]]; trivial.
    exact (float_ltb_trans _ _ _ P G).
Qed.

Lemma settled_initial : settled None 0%float.
Proof. now left. Qed.

Lemma settled_nonnegative (bm : option paintingRow) (h : float) :
  settled bm h -> (0 <=? h)%float = true.
Proof.
  intros [[_ ->]|[_ P]]; [reflexivity|]. now apply positive_nonnegative.
Qed.

(** When every text decodes, the loop of the handler is the loop of the
    matcher on the decoded rows. *)
Lemma compareStored_refines (q : list float) (rows : list paintingRow) :
  Forall (parses JSON_parse) rows ->
  forall bm h,
  exists bm' h',
    compareStored' q rows bm h = Done (bm', h')
    /\ fold_left (compareWith q) (map asPainting' rows)
                 (mkBest (option_map asPainting' bm) h)
       = mkBest (option_map asPainting' bm') h'.
Proof.
  induction 1 as [|p rows Hp _ IH]; intros bm h; cbn [compareStored map fold_left].
  - now exists bm, h.
  - unfold compareWith at 2. cbn [features asPainting]. unfold decoded, parses in *.
    destruct (row_features p) as [text|]; [|apply IH].
    destruct (nonEmpty text) eqn:Hne; [|apply IH].
    destruct (JSON_parse text) as [v|m] eqn:Hv.
    + cbv zeta. cbn [highestSimilarity js_gt binary64].
      destruct (h <? calculateSimilarity q v)%float; [|apply IH].
      exact (IH (Some p) (calculateSimilarity q v)).
    + exfalso. exact (Hp text m eq_refl Hne Hv).
Qed.

(** One text on which [JSON.parse] throws stops the loop, wherever the
    row stands. *)
Lemma compareStored_raises (q : list float) (rows : list paintingRow)
  (p : paintingRow) (text message : String.string) :
  In p rows -> row_features p = Some text -> nonEmpty text = true ->
  JSON_parse text = Raised message ->
  forall bm h, exists message', compareStored' q rows bm h = Raised message'.
Proof.
  intros Hin Ht Hne Hraise.
  induction rows as [|p0 rows IH]; [destruct Hin|]. intros bm h.
  cbn [compareStored]. destruct Hin as [->|Hin].
  - rewrite Ht, Hne, Hraise. now exists message.
  - destruct (row_features p0) as [text0|]; [|now apply IH].
    destruct (nonEmpty text0); [|now apply IH].
    destruct (JSON_parse text0) as [v|m]; [|now exists m]. cbv zeta.
    destruct (h <? calculateSimilarity q v)%float; now apply IH.
Qed.

(** The loop throws only what [JSON.parse] threw on the text of one of
    the rows. *)
Lemma compareStored_raised (q : list float) (rows : list paintingRow)
  (message : String.string) :
  forall bm h,
    compareStored' q rows bm h = Raised message ->
    exists p text,
      In p rows /\ row_features p = Some text /\ nonEmpty text = true
      /\ JSON_parse text = Raised message.
Proof.
  induction rows as [|p0 rows IH]; intros bm h; cbn [compareStored]; [discriminate|].
  assert (Hrest : forall bm' h',
             compareStored' q rows bm' h' = Raised message ->
             exists p text,
               In p (p0 :: rows) /\ row_features p = Some text /\ nonEmpty text = true
               /\ JSON_parse text = Raised message).
  { intros bm' h' E. destruct (IH bm' h' E) as (p & text & Hin & Hrest).
    exists p, text. split; [now right | exact Hrest]. }
  destruct (row_features p0) as [text0|] eqn:Ht; [|apply Hrest].
  destruct (nonEmpty text0) eqn:Hne; [|apply Hrest].
  destruct (JSON_parse text0) as [v|m] eqn:Hv.
  - cbv zeta. destruct (h <? calculateSimilarity q v)%float; apply Hrest.
  - intros E. injection E as ->. exists p0, text0. split; [now left | now repeat split].
Qed.

(** C8, as the code has it: the pass over the stored rows throws
    exactly when one of the rows holds a non-empty text on which
    [JSON.parse] throws, and the exception leaves the loop.  When every
    text decodes, the loop ends with a best score that is a number, not
    [NaN], and the decision on it, under any threshold, returns an answer
    that carries this score.  The similarity function itself does not
    throw on vectors of numbers, but its value is [NaN] against every
    vector of zeros of the same length. *)
Theorem matching_throws_exactly_on_undecodable_text
  (t : float) (q : list float) (rows : list paintingRow) :
  ((exists message, compareStored' q rows None 0%float = Raised message)
   <-> (exists p text message,
          In p rows /\ row_features p = Some text /\ nonEmpty text = true
          /\ JSON_parse text = Raised message))
  /\ (Forall (parses JSON_parse) rows ->
      exists bestMatch highestSimilarity r,
        compareStored' q rows None 0%float = Done (bestMatch, highestSimilarity)
        /\ matchPaintings t q (map asPainting' rows) = Returns r
        /\ score r = highestSimilarity
        /\ highestSimilarity <> nan)
  /\ (forall w z : list float,
        length w = length z -> Forall isZero z -> calculateSimilarity w z = nan).
Proof.
  split; [split|split].
  - intros (message & E).
    destruct (compareStored_raised q rows message None 0%float E) as (p & text & Hp).
    now exists p, text, message.
  - intros (p & text & message & Hin & Ht & Hne & Hraise).
    exact (compareStored_raises q rows p text message Hin Ht Hne Hraise None 0%float).
  - intros Hparse.
    destruct (compareStored_refines q rows Hparse None 0%float) as (bm & h & E & Hfold).
    destruct (matchPaintings_returns t q (map asPainting' rows)) as (r & Hr & Hs).
    exists bm, h, r. split; [exact E|]. split; [exact Hr|].
    assert (Hh : highestSimilarity (scanRows q (map asPainting' rows)) = h).
    { unfold scanRows.
      change (@noBest float _) with (mkBest (option_map asPainting' None) 0%float).
      now rewrite Hfold. }
    split; [now rewrite Hs|].
    rewrite <- Hh. exact (@highest_not_nan float _ _ q (map asPainting' rows)).
  - intros w z Hlen Hz. exact (calculateSimilarity_zero_vector w Hlen Hz).
Qed.

Lemma poolQuery_run (statement : query) (executed : list query) :
  poolQuery pool_query statement executed
  = match pool_query statement with
    | Done rows => (Done rows, executed ++ [statement])
    | Raised message => (Raised message, executed)
    end.
Proof. reflexivity. Qed.

(** The run of the handler once the rows are scanned. *)
Lemma route_after_scan (imageBuffer : buffer) (executed : list query)
  (q : list float) (rows : list paintingRow) :
  extractFeatures imageBuffer = Done q ->
  pool_query SelectPaintings = Done rows ->
  route (Some imageBuffer) executed
  = match compareStored' q rows None 0%float with
    | Raised message => (Done (ProcessingFailed message), executed ++ [SelectPaintings])
    | Done (Some p, h) =>
        if (confidenceThreshold <? h)%float then
          match pool_query (InsertLog (Some (row_id p)) h true) with
          | Raised message =>
              (Done (ProcessingFailed message), executed ++ [SelectPaintings])
          | Done _ =>
              match pool_query (IncrementViewCount (row_id p)) with
              | Raised message =>
                  (Done (ProcessingFailed message),
                   (executed ++ [SelectPaintings])
                     ++ [InsertLog (Some (row_id p)) h true])
              | Done _ =>
                  (Done (PaintingRecognized (toJson p) h),
                   ((executed ++ [SelectPaintings])
                      ++ [InsertLog (Some (row_id p)) h true])
                     ++ [IncrementViewCount (row_id p)])
              end
          end
        else
          match pool_query (InsertLog None h false) with
          | Raised message =>
              (Done (ProcessingFailed message), executed ++ [SelectPaintings])
          | Done _ =>
              (Done (PaintingNotRecognized h),
               (executed ++ [SelectPaintings]) ++ [InsertLog None h false])
          end
    | Done (None, h) =>
        match pool_query (InsertLog None h false) with
        | Raised message =>
            (Done (ProcessingFailed message), executed ++ [SelectPaintings])
        | Done _ =>
            (Done (PaintingNotRecognized h),
             (executed ++ [SelectPaintings]) ++ [InsertLog None h false])
        end
    end.
Proof.
  intros Hq Hrows.
  unfold recognizeRoute, tryCatch, ioBind, await, ioRet.
  rewrite Hq, poolQuery_run, Hrows.
  destruct (compareStored' q rows None 0%float) as [[[p|] h]|m]; cbn [fst snd truthy andb];
    trivial.
  - destruct (confidenceThreshold <? h)%float; cbn [derefRow];
      rewrite !poolQuery_run.
    + destruct (pool_query (InsertLog (Some (row_id p)) h true)); trivial.
      rewrite poolQuery_run.
      now destruct (pool_query (IncrementViewCount (row_id p))).
    + now destruct (pool_query (InsertLog None h false)).
  - rewrite poolQuery_run. now destruct (pool_query (InsertLog None h false)).
Qed.

(** The statements the handler executes agree with its answer: a
    positive answer comes with the success log and the view count of
    the painting it names, a negative one with the failure log alone,
    and a 400 with nothing; whatever the collaborators do, the handler
    answers and never increments a view count without having logged the
    success first. *)
Theorem route_effects_match_answer (file : option buffer) (executed : list query) :
  exists (r : response) (added : list query),
    route file executed = (Done r, executed ++ added)
    /\ match r with
       | NoImageProvided => file = None /\ added = []
       | PaintingRecognized painting confidence =>
           added = [SelectPaintings;
                    InsertLog (Some (json_id painting)) confidence true;
                    IncrementViewCount (json_id painting)]
           /\ (confidenceThreshold <? confidence)%float = true
       | PaintingNotRecognized confidence =>
           added = [SelectPaintings; InsertLog None confidence false]
           /\ (confidenceThreshold <? confidence)%float = false
           /\ (0 <=? confidence)%float = true
       | ProcessingFailed _ =>
           added = []
           \/ added = [SelectPaintings]
           \/ exists painting_id confidence,
               added = [SelectPaintings; InsertLog (Some painting_id) confidence true]
       end.
Proof.
  destruct file as [imageBuffer|].
  2:{ exists NoImageProvided, []. rewrite app_nil_r. now repeat split. }
  destruct (extractFeatures imageBuffer) as [q|m] eqn:Hq.
  2:{ exists (ProcessingFailed m), []. rewrite app_nil_r. split; [|now left].
      unfold recognizeRoute, tryCatch, ioBind, await, ioRet. now rewrite Hq. }
  destruct (pool_query SelectPaintings) as [rows|m] eqn:Hrows.
  2:{ exists (ProcessingFailed m), []. rewrite app_nil_r. split; [|now left].
      unfold recognizeRoute, tryCatch, ioBind, await, ioRet.
      now rewrite Hq, poolQuery_run, Hrows. }
  rewrite (route_after_scan imageBuffer executed q rows Hq Hrows).
  destruct (compareStored' q rows None 0%float) as [[bm h]|m] eqn:Hscan.
  2:{ exists (ProcessingFailed m), [SelectPaintings]. split; trivial. right. now left. }
  pose proof (compareStored_settled q rows None 0%float bm h settled_initial Hscan)
    as Hsettled.
  pose proof (settled_nonnegative bm h Hsettled) as Hnonneg.
  destruct bm as [p|].
  - destruct (confidenceThreshold <? h)%float eqn:G.
    + destruct (pool_query (InsertLog (Some (row_id p)) h true)) as [?|m].
      * destruct (pool_query (IncrementViewCount (row_id p))) as [?|m].
        -- exists (PaintingRecognized (toJson p) h),
             [SelectPaintings; InsertLog (Some (row_id p)) h true;
              IncrementViewCount (row_id p)].
           rewrite <- !app_assoc. now repeat split.
        -- exists (ProcessingFailed m),
             [SelectPaintings; InsertLog (Some (row_id p)) h true].
           rewrite <- !app_assoc. split; trivial. right. right. now exists (row_id p), h.
      * exists (ProcessingFailed m), [SelectPaintings]. split; trivial. right. now left.
    + destruct (pool_query (InsertLog None h false)) as [?|m].
      * exists (PaintingNotRecognized h), [SelectPaintings; InsertLog None h false].
        rewrite <- !app_assoc. now repeat split.
      * exists (ProcessingFailed m), [SelectPaintings]. split; trivial. right. now left.
  - destruct (pool_query (InsertLog None h false)) as [?|m].
    + exists (PaintingNotRecognized h), [SelectPaintings; InsertLog None h false].
      rewrite <- !app_assoc. repeat split; trivial.
      destruct Hsettled as [[_ ->]|[T _]]; [reflexivity|discriminate T].
    + exists (ProcessingFailed m), [SelectPaintings]. split; trivial. right. now left.
Qed.


(** One stored text on which [JSON.parse] throws makes the request fail
    with a 500, whatever the other rows hold: after the [SELECT] no
    statement is executed, and no painting is recognised. *)
Theorem malformed_text_fails_recognition (imageBuffer : buffer) (executed : list query)
  (q : list float) (rows : list paintingRow)
  (p : paintingRow) (text message : String.string) :
  extractFeatures imageBuffer = Done q ->
  pool_query SelectPaintings = Done rows ->
  In p rows ->
  row_features p = Some text ->
  nonEmpty text = true ->
  JSON_parse text = Raised message ->
  exists message',
    route (Some imageBuffer) executed
    = (Done (ProcessingFailed message'), executed ++ [SelectPaintings]).
Proof.
  intros Hq Hrows Hin Ht Hne Hraise.
  rewrite (route_after_scan imageBuffer executed q rows Hq Hrows).
  destruct (compareStored_raises q rows p text message Hin Ht Hne Hraise None 0%float)
    as (m & ->).
  now exists m.
Qed.

(** When the update of the view count throws after a match, the client
    gets a 500 although the recognition log already holds the success
    row of the painting. *)
Theorem failed_view_count_leaves_success_log (imageBuffer : buffer)
  (executed : list query) (q : list float) (rows logged : list paintingRow)
  (p : painting float) (s : float) (message : String.string) :
  extractFeatures imageBuffer = Done q ->
  pool_query SelectPaintings = Done rows ->
  Forall (parses JSON_parse) rows ->
  recognize q (map asPainting' rows) = Returns (Match p s) ->
  pool_query (InsertLog (Some (id p)) s true) = Done logged ->
  pool_query (IncrementViewCount (id p)) = Raised message ->
  route (Some imageBuffer) executed
  = (Done (ProcessingFailed message),
     executed ++ [SelectPaintings; InsertLog (Some (id p)) s true]).
Proof.
  intros Hq Hrows Hparse Hmatch Hlog Hupdate.
  rewrite (route_after_scan imageBuffer executed q rows Hq Hrows).
  destruct (compareStored_refines q rows Hparse None 0%float) as (bm & h & -> & Hfold).
  unfold recognize, matchPaintings, scanRows in Hmatch.
  change (@noBest float _) with (mkBest (option_map asPainting' None) 0%float) in Hmatch.
  rewrite Hfold in Hmatch. destruct bm as [row|]; cbn [option_map] in Hmatch.
  - rewrite respond_some in Hmatch. cbn [js_gt binary64] in Hmatch.
    destruct (confidenceThreshold <? h)%float; [|discriminate].
    injection Hmatch as <- <-. cbn [id asPainting] in Hlog, Hupdate.
    rewrite Hlog, Hupdate, <- !app_assoc. reflexivity.
  - rewrite respond_none in Hmatch. discriminate.
Qed.

End RouteFacts.

Lemma sampleRows_parse : Forall (parses sampleParse) sampleRows.
Proof.
  repeat constructor; intros text message E _; injection E as <-; discriminate.
Qed.

Lemma matching_throws_exactly_on_undecodable_text_witness :
  exists bestMatch highestSimilarity r,
    compareStored sampleParse [1; 0]%float sampleRows None 0%float
    = Done (bestMatch, highestSimilarity)
    /\ matchPaintings confidenceThreshold [1; 0]%float
         (map (asPainting sampleParse) sampleRows) = Returns r
    /\ score r = highestSimilarity
    /\ highestSimilarity <> nan.
Proof.
  apply (proj1 (proj2 (matching_throws_exactly_on_undecodable_text
                         sampleParse confidenceThreshold [1; 0]%float sampleRows))).
  exact sampleRows_parse.
Defined.

(** C8 fails as stated: the text of the last row is cut short,
    [JSON.parse] throws on it, and the exception leaves the loop, which
    returns no answer; and the similarity function, on two vectors of
    one length, returns [NaN], the value the design document excludes as
    not well defined. *)
Lemma matching_loop_propagates_parse_error :
  compareStored sampleParse [1; 0]%float damagedRows None 0%float
  = Raised "Unexpected token in JSON"%string
  /\ length [1; 2]%float = length [0; 0]%float
  /\ calculateSimilarity [1; 2]%float [0; 0]%float = nan
  /\ calculateSimilarity (@nil float) [] = nan.
Proof. repeat split; reflexivity. Qed.


Lemma malformed_text_fails_recognition_witness :
  exists message',
    recognizeRoute sampleExtract sampleParse (sampleDatabase damagedRows) (Some 0) []
    = (Done (ProcessingFailed message'), [] ++ [SelectPaintings]).
Proof.
  apply (malformed_text_fails_recognition nat sampleExtract sampleParse
           (sampleDatabase damagedRows) 0 [] [1; 0]%float damagedRows
           (storedRow 5 "The Persistence of Memory"%string (Some "[0.5,"%string))
           "[0.5,"%string "Unexpected token in JSON"%string).
  - reflexivity.
  - reflexivity.
  - cbn. tauto.
  - reflexivity.
  - reflexivity.
  - reflexivity.
Defined.

Lemma failed_view_count_leaves_success_log_witness :
  recognizeRoute sampleExtract sampleParse (failingUpdate sampleRows) (Some 0) []
  = (Done (ProcessingFailed "Connection terminated"%string),
     [] ++ [SelectPaintings; InsertLog (Some 1%Z) 1%float true]).
Proof.
  apply (failed_view_count_leaves_success_log nat sampleExtract sampleParse
           (failingUpdate sampleRows) 0 [] [1; 0]%float sampleRows []
           (asPainting sampleParse (storedRow 1 "The Starry Night"%string (Some "[1,0]"%string)))
           1%float "Connection terminated"%string).
  - reflexivity.
  - reflexivity.
  - exact sampleRows_parse.
  - reflexivity.
  - reflexivity.
  - reflexivity.
Defined.

(** ** Squares out of range *)

(** A one-component vector whose square overflows to [Infinity], or
    underflows to [0], has similarity [NaN] with itself, although it is
    not the zero vector. *)
Theorem self_similarity_nan_when_square_out_of_range (x : float) :
  (x * x)%float = infinity \/ (x * x)%float = 0%float ->
  calculateSimilarity [x] [x] = nan.
Proof.
  intros Hsq. unfold calculateSimilarity, similarityLoop.
  cbn [length Nat.eqb negb seq fold_left accumulate read nth
         dotProduct norm1 norm2 js_zero js_add js_mul js_div js_sqrt binary64].
  destruct Hsq as [-> | ->]; reflexivity.
Qed.

Lemma self_similarity_nan_when_square_out_of_range_witness :
  calculateSimilarity [1e200]%float [1e200]%float = nan.
Proof.
  apply (self_similarity_nan_when_square_out_of_range 1e200%float).
  left. reflexivity.
Defined.


(** ** Searching and replacing in texts *)

Lemma startsWith_app (pat s : text) : startsWith pat (pat ++ s) = true.
Proof.
  induction pat as [|p pat IH]; cbn; trivial. now rewrite Ascii.eqb_refl.
Qed.

Lemma startsWith_split (pat : text) :
  forall s, startsWith pat s = true -> exists r, s = pat ++ r.
Proof.
  induction pat as [|p pat IH]; intros s Hs.
  - now exists s.
  - destruct s as [|c s]; [discriminate|]. cbn in Hs.
    apply andb_true_iff in Hs as [Hc Hs]. apply Ascii.eqb_eq in Hc as ->.
    destruct (IH s Hs) as (r & ->). now exists r.
Qed.

(** Two texts that both stand at the beginning of a third: one stands at
    the beginning of the other. *)
Lemma startsWith_comparable (q : text) :
  forall r z, startsWith q (r ++ z) = true ->
              startsWith q r = true \/ startsWith r q = true.
Proof.
  induction q as [|a q IH]; intros r z Hq; [now left|].
  destruct r as [|b r]; [now right|]. cbn in *.
  apply andb_true_iff in Hq as [Hab Hq]. rewrite Hab. cbn.
  apply Ascii.eqb_eq in Hab as ->. rewrite Ascii.eqb_refl. cbn.
  exact (IH r z Hq).
Qed.

Lemma includes_intro (q u v : text) : includes q (u ++ q ++ v) = true.
Proof.
  induction u as [|c u IH]; cbn [app].
  - destruct (q ++ v) eqn:E; cbn [includes]; rewrite <- E, startsWith_app; trivial.
  - cbn [includes]. rewrite IH. apply orb_true_r.
Qed.

Lemma includes_elim (q : text) :
  forall s, includes q s = true -> exists u v, s = u ++ q ++ v.
Proof.
  induction s as [|c s IH]; cbn [includes]; intros Hs.
  - rewrite orb_false_r in Hs. apply startsWith_split in Hs as (r & ->).
    now exists [], r.
  - apply orb_true_iff in Hs as [Hs|Hs].
    + apply startsWith_split in Hs as (r & ->). now exists [], r.
    + destruct (IH Hs) as (u & v & ->). now exists (c :: u), v.
Qed.

Lemma includes_tail (q : text) (c : ascii) (s : text) :
  includes q (c :: s) = false -> includes q s = false.
Proof. cbn [includes]. intros Hs. now apply orb_false_iff in Hs as [_ Hs]. Qed.

Lemma includes_suffix (q u : text) :
  forall s, includes q (u ++ s) = false -> includes q s = false.
Proof.
  induction u as [|c u IH]; intros s Hs; trivial.
  apply IH. now apply includes_tail with (c := c).
Qed.

(** No occurrence of [q] begins inside a copy of [rep] that cannot hold
    its beginning. *)
Lemma includes_after_block (q rep : text) :
  noBlockEnd q rep = true ->
  forall z, includes q (rep ++ z) = true -> includes q z = true.
Proof.
  induction rep as [|a rep IH]; intros Hsafe z Hin; trivial.
  cbn [noBlockEnd] in Hsafe. apply andb_true_iff in Hsafe as [Hhere Hsafe].
  apply negb_true_iff in Hhere.
  cbn [app includes] in Hin. apply orb_true_iff in Hin as [Hin|Hin].
  - apply (startsWith_comparable q (a :: rep) z) in Hin.
    apply orb_false_iff in Hhere as [H1 H2].
    destruct Hin as [Hin|Hin]; congruence.
  - now apply IH.
Qed.

Section Replace.

Variables pat rep : text.
Hypothesis pat_not_empty : pat <> [].

Local Abbreviation R := (replaceAll pat rep).

Lemma replaceFrom_skip (u : text) :
  forall s, replaceFrom pat rep (length u) (u ++ s) = replaceFrom pat rep 0 s.
Proof. induction u as [|c u IH]; intros s; cbn; trivial. Qed.

Lemma replaceAll_nil : R [] = [].
Proof. reflexivity. Qed.

Lemma replaceAll_match (s : text) : R (pat ++ s) = rep ++ R s.
Proof.
  unfold replaceAll. revert pat_not_empty. generalize (replaceFrom_skip).
  destruct pat as [|p pat']; [congruence|]. intros Hskip _.
  cbn [app replaceFrom].
  change (p :: pat' ++ s) with ((p :: pat') ++ s). rewrite startsWith_app.
  change (length (p :: pat') - 1) with (length pat' - 0).
  rewrite Nat.sub_0_r. f_equal. apply Hskip.
Qed.

Lemma replaceAll_copy (c : ascii) (s : text) :
  startsWith pat (c :: s) = false -> R (c :: s) = c :: R s.
Proof. intros Hs. unfold replaceAll. cbn [replaceFrom]. now rewrite Hs. Qed.

(** The three ways a text is read. *)
Lemma replace_cases (s : text) :
  s = []
  \/ (exists s', s = pat ++ s')
  \/ (exists c s', s = c :: s' /\ startsWith pat (c :: s') = false).
Proof.
  destruct s as [|c s]; [now left|]. right.
  destruct (startsWith pat (c :: s)) eqn:Hs.
  - left. now apply startsWith_split.
  - right. now exists c, s.
Qed.

Lemma replace_ind (P : text -> Prop) :
  P [] ->
  (forall s, P s -> P (pat ++ s)) ->
  (forall c s, startsWith pat (c :: s) = false -> P s -> P (c :: s)) ->
  forall s, P s.
Proof.
  intros Hnil Hmatch Hcopy s.
  remember (length s) as n eqn:Hn. revert s Hn.
  induction n as [n IH] using lt_wf_ind. intros s ->.
  destruct (replace_cases s) as [->|[(s' & ->)|(c & s' & -> & Hs)]]; trivial.
  - apply Hmatch. apply (IH (length s')); trivial.
    rewrite length_app. destruct pat; [congruence|cbn; lia].
  - apply Hcopy; trivial. apply (IH (length s')); trivial. cbn. lia.
Qed.

(** A text that stands at the beginning of the result stood at the
    beginning of the argument, when no copy of [rep] can begin in it. *)
Lemma startsWith_replaced (t : text) :
  noBlockStart rep t = true ->
  forall s, startsWith t (R s) = true -> startsWith t s = true.
Proof.
  induction t as [|d t IH]; intros Hsafe s Ht; trivial.
  cbn [noBlockStart] in Hsafe. apply andb_true_iff in Hsafe as [Hhere Hsafe].
  apply negb_true_iff, orb_false_iff in Hhere as [H1 H2].
  destruct (replace_cases s) as [->|[(s' & ->)|(c & s' & -> & Hs)]].
  - discriminate Ht.
  - rewrite replaceAll_match in Ht.
    apply startsWith_comparable in Ht as [Ht|Ht]; congruence.
  - rewrite (replaceAll_copy c s' Hs) in Ht. cbn in *.
    apply andb_true_iff in Ht as [Hdc Ht]. rewrite Hdc. cbn.
    now apply IH.
Qed.

(** An occurrence of [q] in the result comes from an occurrence in the
    argument at which the pattern did not stand. *)
Lemma includes_replaced (q : text) :
  q <> [] ->
  cannotCreate q rep = true ->
  forall s, includes q (R s) = true ->
            exists u v, s = u ++ q ++ v /\ startsWith pat (q ++ v) = false.
Proof.
  intros Hq Hsafe. apply andb_true_iff in Hsafe as [Hend Hstart].
  induction s as [|s IH|c s Hs IH] using replace_ind.
  - rewrite replaceAll_nil. cbn. destruct q; [congruence|discriminate].
  - rewrite replaceAll_match. intros Hin.
    apply (includes_after_block q rep Hend) in Hin.
    destruct (IH Hin) as (u & v & -> & Hv).
    exists (pat ++ u), v. now rewrite <- app_assoc.
  - rewrite (replaceAll_copy c s Hs). cbn [includes]. intros Hin.
    apply orb_true_iff in Hin as [Hin|Hin].
    + destruct q as [|a t]; [congruence|]. cbn [tl] in Hstart. cbn in Hin.
      apply andb_true_iff in Hin as [Hac Hin]. apply Ascii.eqb_eq in Hac as ->.
      apply (startsWith_replaced t Hstart) in Hin.
      apply startsWith_split in Hin as (v & ->).
      exists [], v. split; trivial.
    + destruct (IH Hin) as (u & v & -> & Hv). now exists (c :: u), v.
Qed.

(** After the replacement the pattern does not occur any more, when
    writing [rep] cannot create it. *)
Lemma replaceAll_removes (s : text) :
  cannotCreate pat rep = true -> includes pat (R s) = false.
Proof.
  intros Hsafe. destruct (includes pat (R s)) eqn:Hin; trivial.
  destruct (includes_replaced pat pat_not_empty Hsafe s Hin) as (u & v & _ & Hv).
  now rewrite startsWith_app in Hv.
Qed.

(** A text [q] that does not occur before the replacement does not
    occur after it, when writing [rep] cannot create it. *)
Lemma replaceAll_keeps_out (q s : text) :
  q <> [] -> cannotCreate q rep = true ->
  includes q s = false -> includes q (R s) = false.
Proof.
  intros Hq Hsafe Hout. destruct (includes q (R s)) eqn:Hin; trivial.
  destruct (includes_replaced q Hq Hsafe s Hin) as (u & v & -> & _).
  now rewrite includes_intro in Hout.
Qed.

Lemma replaceAll_absent (s : text) : includes pat s = false -> R s = s.
Proof.
  induction s as [|s IH|c s Hs IH] using replace_ind; intros Hout; trivial.
  - pose proof (includes_intro pat [] s) as Hin. cbn [app] in Hin. congruence.
  - rewrite (replaceAll_copy c s Hs). f_equal. apply IH.
    now apply includes_tail with (c := c).
Qed.

Lemma replaceAll_length (s : text) :
  length pat <= length rep -> length s <= length (R s).
Proof.
  intros Hlen.
  induction s as [|s IH|c s Hs IH] using replace_ind; trivial.
  - rewrite replaceAll_match, !length_app. lia.
  - rewrite (replaceAll_copy c s Hs). cbn. lia.
Qed.

End Replace.

(** ** [enhanceDescriptionText] *)

Lemma toUpperCase_not_lower (c : ascii) : isLowerCase (toUpperCase c) = false.
Proof. destruct c as [[|] [|] [|] [|] [|] [|] [|] [|]]; reflexivity. Qed.

Lemma toUpperCase_fixed (c : ascii) : isLowerCase c = false -> toUpperCase c = c.
Proof. unfold toUpperCase. now intros ->. Qed.

(** Raising the first character cannot create an occurrence of a text
    that begins with a lower-case letter. *)
Lemma includes_capitalized (a : ascii) (t s : text) :
  isLowerCase a = true ->
  includes (a :: t) s = false -> includes (a :: t) (capitalize s) = false.
Proof.
  intros Ha. destruct s as [|c s]; trivial. cbn [capitalize includes].
  intros Hout. apply orb_false_iff in Hout as [_ Hout]. rewrite Hout, orb_false_r.
  cbn. destruct (Ascii.eqb a (toUpperCase c)) eqn:E; trivial.
  apply Ascii.eqb_eq in E. subst a. now rewrite toUpperCase_not_lower in Ha.
Qed.

Lemma capitalize_capitalized (s : text) : capitalize (capitalize s) = capitalize s.
Proof.
  destruct s as [|c s]; trivial. cbn. f_equal.
  apply toUpperCase_fixed, toUpperCase_not_lower.
Qed.

Lemma lit_not_empty_painting : lit "painting" <> [].
Proof. discriminate. Qed.

Lemma lit_not_empty_shows : lit "shows" <> [].
Proof. discriminate. Qed.

Lemma lit_not_empty_made : lit "made" <> [].
Proof. discriminate. Qed.

Lemma lit_not_empty_work : lit "work" <> [].
Proof. discriminate. Qed.

Lemma enhance_removes (description : text) :
  includes (lit "painting") (enhanceDescriptionText description) = false
  /\ includes (lit "made") (enhanceDescriptionText description) = false
  /\ includes (lit "work") (enhanceDescriptionText description) = false.
Proof.
  unfold enhanceDescriptionText. cbv zeta.
  set (s1 := replaceAll (lit "painting") (lit "masterpiece") description).
  set (s2 := replaceAll (lit "shows") (lit "depicts") s1).
  set (s3 := replaceAll (lit "made") (lit "created") s2).
  set (s4 := replaceAll (lit "work") (lit "artistic achievement") s3).
  repeat split; apply includes_capitalized; try reflexivity.
  - apply replaceAll_keeps_out; [exact lit_not_empty_work|discriminate|reflexivity|].
    apply replaceAll_keeps_out; [exact lit_not_empty_made|discriminate|reflexivity|].
    apply replaceAll_keeps_out; [exact lit_not_empty_shows|discriminate|reflexivity|].
    apply replaceAll_removes; [exact lit_not_empty_painting|reflexivity].
  - apply replaceAll_keeps_out; [exact lit_not_empty_work|discriminate|reflexivity|].
    apply replaceAll_removes; [exact lit_not_empty_made|reflexivity].
  - apply replaceAll_removes; [exact lit_not_empty_work|reflexivity].
Qed.

(** The words [painting], [made] and [work] never occur in an improved
    description: every occurrence is replaced, also inside a longer
    word, and no replacement brings one back. *)
Theorem enhanced_has_no_painting_made_work (description : text) :
  includes (lit "painting") (enhanceDescriptionText description) = false
  /\ includes (lit "made") (enhanceDescriptionText description) = false
  /\ includes (lit "work") (enhanceDescriptionText description) = false.
Proof. exact (enhance_removes description). Qed.

(** The word [shows] is different: [depicts] ends with the letter
    [shows] begins with, so a replacement can complete a new [shows], and
    improving twice is then not the same as improving once. *)
Theorem shows_can_survive :
  exists description : text,
    includes (lit "shows") (enhanceDescriptionText description) = true
    /\ enhanceDescriptionText (enhanceDescriptionText description)
       <> enhanceDescriptionText description.
Proof. exists (lit "showshows"). split; [reflexivity|discriminate]. Qed.

Lemma enhance_clean (description : text) :
  includes (lit "painting") description = false ->
  includes (lit "shows") description = false ->
  includes (lit "made") description = false ->
  includes (lit "work") description = false ->
  capitalize description = description ->
  enhanceDescriptionText description = description.
Proof.
  intros H1 H2 H3 H4 Hcap. unfold enhanceDescriptionText. cbv zeta.
  rewrite (replaceAll_absent (lit "painting") (lit "masterpiece") lit_not_empty_painting description H1).
  rewrite (replaceAll_absent (lit "shows") (lit "depicts") lit_not_empty_shows description H2).
  rewrite (replaceAll_absent (lit "made") (lit "created") lit_not_empty_made description H3).
  rewrite (replaceAll_absent (lit "work") (lit "artistic achievement") lit_not_empty_work description H4).
  exact Hcap.
Qed.

Lemma capitalize_startsCapitalized (s : text) :
  startsCapitalized s = true -> capitalize s = s.
Proof.
  destruct s as [|c s]; trivial. cbn [startsCapitalized capitalize].
  intros Hc. apply andb_prop in Hc as [_ Hlow]. apply negb_true_iff in Hlow.
  unfold toUpperCase. now rewrite Hlow.
Qed.

(** A description in which none of the four words occurs, and which is
    empty or begins with an ASCII character other than a lower-case
    letter, is returned as it is. *)
Theorem enhance_leaves_clean_text (description : text) :
  includes (lit "painting") description = false ->
  includes (lit "shows") description = false ->
  includes (lit "made") description = false ->
  includes (lit "work") description = false ->
  startsCapitalized description = true ->
  enhanceDescriptionText description = description.
Proof.
  intros H1 H2 H3 H4 Hcap. apply enhance_clean; trivial.
  now apply capitalize_startsCapitalized.
Qed.

Lemma enhance_leaves_clean_text_witness :
  enhanceDescriptionText (lit "A river landscape at dusk.")
  = lit "A river landscape at dusk.".
Proof.
  apply (enhance_leaves_clean_text (lit "A river landscape at dusk."));
    reflexivity.
Defined.

(** Improving an improved description changes nothing more, unless a
    [shows] has come back. *)
Theorem enhance_twice (description : text) :
  includes (lit "shows") (enhanceDescriptionText description) = false ->
  enhanceDescriptionText (enhanceDescriptionText description)
  = enhanceDescriptionText description.
Proof.
  intros Hshows.
  destruct (enhance_removes description) as (Hp & Hm & Hw).
  apply enhance_clean; trivial.
  unfold enhanceDescriptionText. cbv zeta. apply capitalize_capitalized.
Qed.

Lemma enhance_twice_witness :
  enhanceDescriptionText
    (enhanceDescriptionText (lit "this painting shows a homemade framework"))
  = enhanceDescriptionText (lit "this painting shows a homemade framework").
Proof.
  apply (enhance_twice (lit "this painting shows a homemade framework")).
  reflexivity.
Defined.

(** ** [generateTemplateDescription] *)

Lemma includes_app_r (q a s : text) : includes q s = true -> includes q (a ++ s) = true.
Proof.
  intros Hs. induction a as [|c a IH]; trivial.
  cbn [app includes]. rewrite IH. apply orb_true_r.
Qed.

Lemma includes_here (q v : text) : includes q (q ++ v) = true.
Proof. exact (includes_intro q [] v). Qed.

(** The key found is the first, in the order written, that the
    lower-cased artist includes. *)
Lemma template_selected (title artist : text) (year : option text) (museum : text) :
  let templates := artistTemplates title artist year museum in
  let name := toLowerCaseText artist in
  generateTemplateDescription title artist year museum
  = if includes (lit "turner") name then option_map snd (nth_error templates 0)
    else if includes (lit "constable") name then option_map snd (nth_error templates 1)
    else if includes (lit "van gogh") name then option_map snd (nth_error templates 2)
    else option_map snd (nth_error templates 3).
Proof.
  cbv zeta. unfold generateTemplateDescription, artistTemplates.
  cbn [map fst find].
  destruct (includes (lit "turner") (toLowerCaseText artist)); [reflexivity|].
  destruct (includes (lit "constable") (toLowerCaseText artist)); [reflexivity|].
  destruct (includes (lit "van gogh") (toLowerCaseText artist)); [reflexivity|].
  destruct (includes (lit "default") (toLowerCaseText artist)); reflexivity.
Qed.

(** Whatever the inputs, a description is returned; it begins with the
    title between double quotes, followed by [by], and it names the
    museum. *)
Theorem description_names_title_and_museum
  (title artist : text) (year : option text) (museum : text) :
  exists (d rest : text),
    generateTemplateDescription title artist year museum = Some d
    /\ d = quote ++ title ++ quote ++ lit " by" ++ rest
    /\ includes museum d = true.
Proof.
  rewrite template_selected. cbv zeta. unfold artistTemplates.
  destruct (includes (lit "turner") (toLowerCaseText artist));
    [|destruct (includes (lit "constable") (toLowerCaseText artist));
      [|destruct (includes (lit "van gogh") (toLowerCaseText artist))]];
    cbn [nth_error option_map snd]; eexists; eexists;
    (split; [reflexivity|]); (split; [reflexivity|]);
    repeat first [apply includes_here | apply includes_app_r].
Qed.

(** A name that includes [turner] in any case, alone or inside a longer
    word, gets the text about J.M.W. Turner; the text does not depend on
    the artist that was given, and [turner] comes before the other
    keys. *)
Theorem turner_text_ignores_the_artist
  (title artist artist' : text) (year : option text) (museum : text) :
  includes (lit "turner") (toLowerCaseText artist) = true ->
  includes (lit "turner") (toLowerCaseText artist') = true ->
  generateTemplateDescription title artist year museum
  = generateTemplateDescription title artist' year museum.
Proof.
  intros Ha Ha'. rewrite !template_selected. cbv zeta.
  now rewrite Ha, Ha'.
Qed.

Lemma turner_text_ignores_the_artist_witness :
  generateTemplateDescription (lit "Proud Mary") (lit "Tina TURNER") None (lit "Tate")
  = generateTemplateDescription (lit "Proud Mary")
      (lit "John Constable and J.M.W. Turner") None (lit "Tate").
Proof.
  apply (turner_text_ignores_the_artist (lit "Proud Mary") (lit "Tina TURNER")
           (lit "John Constable and J.M.W. Turner") None (lit "Tate"));
    reflexivity.
Defined.

(** ** The route [POST /api/admin/add-features] *)

Section AddFeaturesFacts.

Variable buffer : Type.
Variable extractFeatures : buffer -> outcome (list float).
Variable JSON_stringify : list float -> String.string.
Variable pool_query : query -> outcome (list paintingRow).

Local Abbreviation addFeatures :=
  (addFeaturesRoute extractFeatures JSON_stringify pool_query).

(** Whatever the extractor and the database do, the route answers, and
    what it has executed agrees with the answer: the two 400 and the 500
    leave no statement behind; the success has written the text of the
    very vector whose number of components it reports, under the id
    that was given; the 404 has executed the update as well, on no
    row, after the image was run through the extractor. *)
Theorem add_features_effects_match_answer
  (file : option buffer) (paintingId : option String.string) (executed : list query) :
  exists (r : featuresResponse) (added : list query),
    addFeatures file paintingId executed = (Done r, executed ++ added)
    /\ match r with
       | ImageRequired => file = None /\ added = []
       | PaintingIdRequired => truthyText paintingId = false /\ added = []
       | PaintingNotFound =>
           exists imageBuffer features givenId,
             file = Some imageBuffer
             /\ extractFeatures imageBuffer = Done features
             /\ paintingId = Some givenId
             /\ added = [StoreFeatures (JSON_stringify features) givenId]
       | FeaturesExtracted _ _ givenId featureCount =>
           exists imageBuffer features,
             file = Some imageBuffer
             /\ extractFeatures imageBuffer = Done features
             /\ paintingId = Some givenId
             /\ featureCount = length features
             /\ added = [StoreFeatures (JSON_stringify features) givenId]
       | FeaturesFailed _ => added = []
       end.
Proof.
  unfold addFeaturesRoute, tryCatch, ioBind, await, ioRet, poolQuery.
  destruct file as [imageBuffer|].
  2:{ exists ImageRequired, []. rewrite app_nil_r. now repeat split. }
  destruct paintingId as [givenId|].
  2:{ exists PaintingIdRequired, []. rewrite app_nil_r. now repeat split. }
  destruct (nonEmpty givenId) eqn:Hid.
  2:{ exists PaintingIdRequired, []. rewrite app_nil_r. now repeat split. }
  destruct (extractFeatures imageBuffer) as [features|m] eqn:Hf.
  2:{ exists (FeaturesFailed m), []. rewrite app_nil_r. now split. }
  destruct (pool_query (StoreFeatures (JSON_stringify features) givenId))
    as [[|painting rest]|m].
  - exists PaintingNotFound, [StoreFeatures (JSON_stringify features) givenId].
    split; trivial. now exists imageBuffer, features, givenId.
  - exists (FeaturesExtracted (row_title painting) (row_artist painting) givenId
              (length features)),
      [StoreFeatures (JSON_stringify features) givenId].
    split; trivial. now exists imageBuffer, features.
  - exists (FeaturesFailed m), []. rewrite app_nil_r. now split.
Qed.

End AddFeaturesFacts.

(** ** A norm that underflows *)

(** Rounding keeps the sign. *)
Lemma sf_round_sign (sx : bool) (mx ex : Z) (lx : location) :
  match binary_round_aux prec emax sx mx ex lx with
  | S754_zero s | S754_infinity s | S754_finite s _ _ => s = sx
  | S754_nan => True
  end.
Proof.
  unfold binary_round_aux.
  destruct (shr_fexp prec emax mx ex lx) as [mrs' e'].
  destruct (shr_fexp prec emax _ e' loc_Exact) as [mrs'' e''].
  destruct (shr_m mrs''); trivial.
  now destruct (Z.leb e'' (emax - prec)).
Qed.

Lemma sf_square_not_negative (x : spec_float) : sf_not_negative (SF64mul x x) = true.
Proof.
  destruct x as [s|s| |s m e]; cbn; try reflexivity; try now rewrite xorb_nilpotent.
  pose proof (sf_round_sign (xorb s s) (Z.pos (m * m)) (e + e) loc_Exact) as Hsign.
  rewrite xorb_nilpotent in *.
  destruct (binary_round_aux prec emax false (Z.pos (m * m)) (e + e) loc_Exact);
    cbn; trivial; now subst.
Qed.

Lemma sf_add_zero_not_negative (z : spec_float) :
  sf_not_negative z = true -> sf_not_negative (SF64add (S754_zero false) z) = true.
Proof. now destruct z as [[|]|s| |s m e]. Qed.

Lemma sf_sqrt_not_negative (z : spec_float) :
  sf_not_negative z = true -> sf_not_negative (SF64sqrt z) = true.
Proof.
  destruct z as [s|[|]| |[|] m e]; cbn; trivial; try discriminate. intros _.
  destruct (SFsqrt_core_binary prec emax (Z.pos m) e) as [[mz ez] lz].
  pose proof (sf_round_sign false mz ez lz) as Hsign.
  destruct (binary_round_aux prec emax false mz ez lz); cbn; trivial; now subst.
Qed.

Lemma sf_zero_times_finite (z : spec_float) :
  sf_not_negative z = true -> SFltb z (S754_infinity false) = true ->
  SF64mul (S754_zero false) z = S754_zero false.
Proof. now destruct z as [[|]|[|]| |[|] m e]. Qed.

Lemma sf_add_zero_positive (z : spec_float) :
  SFltb (S754_zero false) z = true -> SF64add (S754_zero false) z = z.
Proof. now destruct z as [[|]|[|]| |[|] m e]. Qed.

Lemma sf_positive_over_zero (z : spec_float) :
  SFltb (S754_zero false) z = true -> SF64div z (S754_zero false) = S754_infinity false.
Proof. now destruct z as [[|]|[|]| |[|] m e]. Qed.

(** When the square of [x] underflows to [0] while [x * y] is still
    positive and the norm of [y] is finite, the quotient is a positive
    number over [0]. *)
Lemma similarity_infinite (x y : float) :
  (x * x)%float = 0%float ->
  (0 <? x * y)%float = true ->
  (PrimFloat.sqrt (0 + y * y) <? infinity)%float = true ->
  calculateSimilarity [x] [y] = infinity.
Proof.
  intros Hxx Hxy Hy. unfold calculateSimilarity, similarityLoop.
  cbn [length Nat.eqb negb seq fold_left accumulate read nth
         dotProduct norm1 norm2 js_zero js_add js_mul js_div js_sqrt binary64].
  rewrite Hxx.
  replace (PrimFloat.sqrt (0 + 0))%float with 0%float by reflexivity.
  assert (Hden : (0 * PrimFloat.sqrt (0 + y * y))%float = 0%float).
  { apply Prim2SF_inj. rewrite mul_spec, sqrt_spec, add_spec, mul_spec.
    rewrite ltb_spec, sqrt_spec, add_spec, mul_spec in Hy.
    apply sf_zero_times_finite; trivial.
    apply sf_sqrt_not_negative, sf_add_zero_not_negative, sf_square_not_negative. }
  rewrite Hden. rewrite ltb_spec in Hxy.
  apply Prim2SF_inj. rewrite div_spec, add_spec.
  change (Prim2SF 0) with (S754_zero false).
  rewrite (sf_add_zero_positive _ Hxy).
  now apply sf_positive_over_zero.
Qed.

(** Over binary64 the confidence is not bounded by [1]: a query whose
    square underflows to [0], against a stored vector with which its
    product is still positive, scores [Infinity], and the handler's pass
    answers [Match] with that confidence. *)
Theorem match_with_infinite_confidence (x y : float) (p : painting float) :
  features p = Some [y] ->
  (x * x)%float = 0%float ->
  (0 <? x * y)%float = true ->
  (PrimFloat.sqrt (0 + y * y) <? infinity)%float = true ->
  calculateSimilarity [x] [y] = infinity
  /\ recognize [x] [p] = Returns (Match p infinity).
Proof.
  intros Hp Hxx Hxy Hy.
  pose proof (similarity_infinite x y Hxx Hxy Hy) as Hsim.
  split; trivial.
  unfold recognize, matchPaintings, scanRows. cbn [fold_left].
  unfold compareWith. rewrite Hp. cbv zeta. rewrite Hsim. reflexivity.
Qed.

Lemma match_with_infinite_confidence_witness :
  calculateSimilarity [1e-200]%float [1e150]%float = infinity
  /\ recognize [1e-200]%float [entry 7 "Guernica" (Some [1e150]%float)]
     = Returns (Match (entry 7 "Guernica" (Some [1e150]%float)) infinity).
Proof.
  apply (match_with_infinite_confidence 1e-200%float 1e150%float
           (entry 7 "Guernica" (Some [1e150]%float)));
    reflexivity.
Defined.
